(** * A todo list kept in local storage: the list logic of [src/App.tsx]

    The development embeds the hook [useTodos] (load from storage, write
    back, add, remove, toggle), the id generator [uid], the derived counter
    and the submit handler of [Home], together with the parts of the
    JavaScript runtime they call: strings as sequences of UTF-16 code units,
    [String.prototype.trim] and [slice], [JSON.parse] and [JSON.stringify],
    and a key-value storage.  Exceptions are explicit: a computation that can
    throw returns a [completion]. *)

From Stdlib Require Import List NArith Ascii String Bool Arith Lia Permutation.
Import ListNotations.

Set Implicit Arguments.
#[local] Set Warnings "-register-all".

(** ** JavaScript strings *)

(** A string is a sequence of 16-bit code units.  The unit is kept as a
    binary natural number; nothing below depends on the bound 65536 except
    where it is stated. *)
Definition code_unit := N.
Definition jsstring := list code_unit.

(** The code units of an ASCII literal. *)
Definition lit (s : string) : jsstring :=
  List.map N_of_ascii (list_ascii_of_string s).

(** The code unit of an ASCII character. *)
Definition cu (a : ascii) : code_unit := N_of_ascii a.

(** [a === b] on two strings: same length, same code units. *)
Fixpoint str_eqb (a b : jsstring) : bool :=
  match a, b with
  | [], [] => true
  | x :: a', y :: b' => N.eqb x y && str_eqb a' b'
  | _, _ => false
  end.

(** [s.slice(start, end)] for [0 <= start <= end]. *)
Definition slice (start fin : nat) (s : jsstring) : jsstring :=
  firstn (fin - start) (skipn start s).

(** The code points that [trim] strips: WhiteSpace and LineTerminator of
    ECMAScript (TAB, LF, VT, FF, CR, SP, NBSP, U+1680, U+2000..U+200A,
    U+2028, U+2029, U+202F, U+205F, U+3000, U+FEFF). *)
Definition is_white_space (c : code_unit) : bool :=
  ((9 <=? c) && (c <=? 13) || (c =? 32) || (c =? 160) || (c =? 5760)
   || (8192 <=? c) && (c <=? 8202) || (c =? 8232) || (c =? 8233)
   || (c =? 8239) || (c =? 8287) || (c =? 12288) || (c =? 65279))%N.

Fixpoint trimStart (s : jsstring) : jsstring :=
  match s with
  | c :: s' => if is_white_space c then trimStart s' else s
  | [] => []
  end.

Definition trimEnd (s : jsstring) : jsstring := rev (trimStart (rev s)).

(** [s.trim()]. *)
Definition trim (s : jsstring) : jsstring := trimEnd (trimStart s).

(** ** Completions *)

(** The outcome of a computation that may throw. *)
Inductive completion (A : Type) : Type :=
| Normal (a : A)
| Throw.
Arguments Throw {A}.

Definition bind {A B} (c : completion A) (k : A -> completion B) : completion B :=
  match c with
  | Normal a => k a
  | Throw => Throw
  end.

Notation "x <- c ;; k" := (bind c (fun x => k))
  (at level 61, c at next level, right associativity).

(** ** The data model *)

(** [type Todo = { id: string; title: string; completed: boolean }]. *)
Record Todo : Type := {
  id : jsstring;
  title : jsstring;
  completed : bool
}.

(** ** JSON *)

Module JSON.

(** The values [JSON.parse] builds.  A number is carried as the literal it
    was read from: no operation of the application inspects a number, and
    its conversion to a double is not modelled.  An object is the list of
    its own properties in creation order. *)
Inductive jsvalue : Type :=
| JNull
| JBool (b : bool)
| JNumber (literal : jsstring)
| JString (s : jsstring)
| JArray (elems : list jsvalue)
| JObject (props : list (jsstring * jsvalue)).

(** [Array.isArray(v)]. *)
Definition isArray (v : jsvalue) : bool :=
  match v with
  | JArray _ => true
  | _ => false
  end.

(** What a parsing function returns: the parsed item and the text left, a
    syntax error, or a recursion budget that was too small. *)
Inductive outcome (A : Type) : Type :=
| Parsed (a : A) (rest : jsstring)
| SyntaxError
| OutOfFuel.
Arguments SyntaxError {A}.
Arguments OutOfFuel {A}.

Definition andThen {A B} (o : outcome A) (k : A -> jsstring -> outcome B) : outcome B :=
  match o with
  | Parsed a rest => k a rest
  | SyntaxError => SyntaxError
  | OutOfFuel => OutOfFuel
  end.

Definition mapParsed {A B} (f : A -> B) (o : outcome A) : outcome B :=
  andThen o (fun a rest => Parsed (f a) rest).

(** JSON white space: TAB, LF, CR, SP. *)
Definition is_ws (c : code_unit) : bool :=
  ((c =? 9) || (c =? 10) || (c =? 13) || (c =? 32))%N.

Fixpoint skip_ws (s : jsstring) : jsstring :=
  match s with
  | c :: s' => if is_ws c then skip_ws s' else s
  | [] => []
  end.

(** *** String literals *)

Definition hex_value (c : code_unit) : option N :=
  if ((48 <=? c) && (c <=? 57))%N then Some (c - 48)%N
  else if ((65 <=? c) && (c <=? 70))%N then Some (c - 55)%N
  else if ((97 <=? c) && (c <=? 102))%N then Some (c - 87)%N
  else None.

Definition hex4_value (h1 h2 h3 h4 : code_unit) : option code_unit :=
  match hex_value h1, hex_value h2, hex_value h3, hex_value h4 with
  | Some a, Some b, Some c, Some d => Some (((a * 16 + b) * 16 + c) * 16 + d)%N
  | _, _, _, _ => None
  end.

(** The character a single-letter escape stands for: quote, backslash,
    slash, b, f, n, r, t. *)
Definition unescape (e : code_unit) : option code_unit :=
  if (e =? 34)%N then Some 34%N
  else if (e =? 92)%N then Some 92%N
  else if (e =? 47)%N then Some 47%N
  else if (e =? 98)%N then Some 8%N
  else if (e =? 102)%N then Some 12%N
  else if (e =? 110)%N then Some 10%N
  else if (e =? 114)%N then Some 13%N
  else if (e =? 116)%N then Some 9%N
  else None.

(** The characters of a string literal, after its opening quote, up to and
    including the closing quote. *)
Fixpoint parse_string (s : jsstring) : outcome jsstring :=
  match s with
  | [] => SyntaxError
  | c :: s' =>
      if (c =? 34)%N then Parsed [] s'
      else if (c =? 92)%N then
        match s' with
        | [] => SyntaxError
        | e :: s'' =>
            if (e =? 117)%N then
              match s'' with
              | h1 :: h2 :: h3 :: h4 :: s4 =>
                  match hex4_value h1 h2 h3 h4 with
                  | Some u => mapParsed (cons u) (parse_string s4)
                  | None => SyntaxError
                  end
              | _ => SyntaxError
              end
            else
              match unescape e with
              | Some u => mapParsed (cons u) (parse_string s'')
              | None => SyntaxError
              end
        end
      else if (c <? 32)%N then SyntaxError
      else mapParsed (cons c) (parse_string s')
  end.

(** *** Number literals *)

Definition is_digit (c : code_unit) : bool := ((48 <=? c) && (c <=? 57))%N.

(** The longest run of digits at the front, and what follows it. *)
Fixpoint span_digits (s : jsstring) : jsstring * jsstring :=
  match s with
  | c :: s' =>
      if is_digit c then let (ds, r) := span_digits s' in (c :: ds, r)
      else ([], s)
  | [] => ([], [])
  end.

(** An optional minus sign. *)
Definition parse_minus (s : jsstring) : jsstring * jsstring :=
  match s with
  | c :: s' => if (c =? 45)%N then ([c], s') else ([], s)
  | [] => ([], [])
  end.

(** The integer part: a single 0, or a digit 1-9 followed by digits. *)
Definition parse_int (s : jsstring) : outcome jsstring :=
  match s with
  | c :: s' =>
      if (c =? 48)%N then Parsed [c] s'
      else if is_digit c then let (ds, r) := span_digits s' in Parsed (c :: ds) r
      else SyntaxError
  | [] => SyntaxError
  end.

(** An optional fraction: a point and at least one digit. *)
Definition parse_frac (s : jsstring) : outcome jsstring :=
  match s with
  | c :: s' =>
      if (c =? 46)%N then
        match span_digits s' with
        | ([], _) => SyntaxError
        | (ds, r) => Parsed (c :: ds) r
        end
      else Parsed [] s
  | [] => Parsed [] []
  end.

(** An optional exponent: e or E, an optional sign, at least one digit. *)
Definition parse_exp (s : jsstring) : outcome jsstring :=
  match s with
  | c :: s' =>
      if ((c =? 101) || (c =? 69))%N then
        let (sign, s1) :=
          match s' with
          | g :: s'' => if ((g =? 43) || (g =? 45))%N then ([g], s'') else ([], s')
          | [] => ([], [])
          end in
        match span_digits s1 with
        | ([], _) => SyntaxError
        | (ds, r) => Parsed (c :: sign ++ ds) r
        end
      else Parsed [] s
  | [] => Parsed [] []
  end.

Definition parse_number (s : jsstring) : outcome jsstring :=
  let (sign, s1) := parse_minus s in
  andThen (parse_int s1) (fun int s2 =>
  andThen (parse_frac s2) (fun frac s3 =>
  andThen (parse_exp s3) (fun exp s4 =>
  Parsed (sign ++ int ++ frac ++ exp) s4))).

(** *** Values *)

Fixpoint strip_prefix (p s : jsstring) : option jsstring :=
  match p, s with
  | [], _ => Some s
  | x :: p', y :: s' => if (x =? y)%N then strip_prefix p' s' else None
  | _ :: _, [] => None
  end.

Definition parse_literal (word : jsstring) (v : jsvalue) (s : jsstring) : outcome jsvalue :=
  match strip_prefix word s with
  | Some rest => Parsed v rest
  | None => SyntaxError
  end.

(** Defining property [k] of an object under construction: a key seen
    before keeps its place and takes the new value. *)
Fixpoint set_prop (k : jsstring) (v : jsvalue) (ps : list (jsstring * jsvalue))
  : list (jsstring * jsvalue) :=
  match ps with
  | [] => [(k, v)]
  | (k', v') :: ps' =>
      if str_eqb k' k then (k', v) :: ps' else (k', v') :: set_prop k v ps'
  end.

Definition make_object (members : list (jsstring * jsvalue)) : jsvalue :=
  JObject (fold_left (fun ps m => set_prop (fst m) (snd m) ps) members []).

(** [parse_value] reads one value after optional white space.
    [parse_elements] reads the elements of an array after its opening
    bracket, up to and including the closing one; [parse_members] does the
    same for the members of an object.  Each call spends one unit of
    [fuel]. *)
Fixpoint parse_value (fuel : nat) (s : jsstring) {struct fuel} : outcome jsvalue :=
  match fuel with
  | O => OutOfFuel
  | S fuel' =>
      match skip_ws s with
      | [] => SyntaxError
      | c :: r =>
          if (c =? 91)%N then
            match skip_ws r with
            | d :: r' =>
                if (d =? 93)%N then Parsed (JArray []) r'
                else mapParsed JArray (parse_elements fuel' r)
            | [] => SyntaxError
            end
          else if (c =? 123)%N then
            match skip_ws r with
            | d :: r' =>
                if (d =? 125)%N then Parsed (JObject []) r'
                else mapParsed make_object (parse_members fuel' r)
            | [] => SyntaxError
            end
          else if (c =? 34)%N then mapParsed JString (parse_string r)
          else if (c =? 116)%N then parse_literal (lit "true") (JBool true) (c :: r)
          else if (c =? 102)%N then parse_literal (lit "false") (JBool false) (c :: r)
          else if (c =? 110)%N then parse_literal (lit "null") JNull (c :: r)
          else mapParsed JNumber (parse_number (c :: r))
      end
  end

with parse_elements (fuel : nat) (s : jsstring) {struct fuel} : outcome (list jsvalue) :=
  match fuel with
  | O => OutOfFuel
  | S fuel' =>
      andThen (parse_value fuel' s) (fun v r =>
        match skip_ws r with
        | c :: r' =>
            if (c =? 44)%N then mapParsed (cons v) (parse_elements fuel' r')
            else if (c =? 93)%N then Parsed [v] r'
            else SyntaxError
        | [] => SyntaxError
        end)
  end

with parse_members (fuel : nat) (s : jsstring) {struct fuel}
  : outcome (list (jsstring * jsvalue)) :=
  match fuel with
  | O => OutOfFuel
  | S fuel' =>
      match skip_ws s with
      | q :: r =>
          if (q =? 34)%N then
            andThen (parse_string r) (fun k r1 =>
              match skip_ws r1 with
              | c :: r2 =>
                  if (c =? 58)%N then
                    andThen (parse_value fuel' r2) (fun v r3 =>
                      match skip_ws r3 with
                      | d :: r4 =>
                          if (d =? 44)%N then
                            mapParsed (cons (k, v)) (parse_members fuel' r4)
                          else if (d =? 125)%N then Parsed [(k, v)] r4
                          else SyntaxError
                      | [] => SyntaxError
                      end)
                  else SyntaxError
              | [] => SyntaxError
              end)
          else SyntaxError
      | [] => SyntaxError
      end
  end.

(** The budget [parse] gives to [parse_value]: a call chain goes through at
    most two calls for each character of the text. *)
Definition fuel_for (text : jsstring) : nat := 2 * List.length text + 1.

(** [JSON.parse(text)]: one value, white space around it, nothing else;
    anything else throws a SyntaxError. *)
Definition parse (text : jsstring) : completion jsvalue :=
  match parse_value (fuel_for text) text with
  | Parsed v rest =>
      match skip_ws rest with
      | [] => Normal v
      | _ :: _ => Throw
      end
  | SyntaxError => Throw
  | OutOfFuel => Throw
  end.

(** *** Quoting strings *)

Definition hex_digit (d : N) : code_unit :=
  if (d <? 10)%N then (48 + d)%N else (87 + d)%N.

(** UnicodeEscape: backslash, u and four lowercase hexadecimal digits. *)
Definition unicode_escape (c : code_unit) : jsstring :=
  [92; 117; hex_digit (c / 4096 mod 16); hex_digit (c / 256 mod 16);
   hex_digit (c / 16 mod 16); hex_digit (c mod 16)]%N.

Definition is_high_surrogate (c : code_unit) : bool :=
  ((55296 <=? c) && (c <=? 56319))%N.
Definition is_low_surrogate (c : code_unit) : bool :=
  ((56320 <=? c) && (c <=? 57343))%N.

(** The text that stands for one code unit that is not part of a surrogate
    pair: a two-character escape for backspace, tab, line feed, form feed,
    carriage return, quote and backslash; a unicode escape for the other
    control characters and for a lone surrogate; the unit itself
    otherwise. *)
Definition quote_unit (c : code_unit) : jsstring :=
  if (c =? 8)%N then [92; 98]%N
  else if (c =? 9)%N then [92; 116]%N
  else if (c =? 10)%N then [92; 110]%N
  else if (c =? 12)%N then [92; 102]%N
  else if (c =? 13)%N then [92; 114]%N
  else if (c =? 34)%N then [92; 34]%N
  else if (c =? 92)%N then [92; 92]%N
  else if (c <? 32)%N || is_high_surrogate c || is_low_surrogate c
       then unicode_escape c
  else [c].

(** The characters between the quotes of QuoteJSONString: the string is
    read code point by code point, so a high surrogate followed by a low
    one is copied as a pair. *)
Fixpoint quote_chars (s : jsstring) : jsstring :=
  match s with
  | [] => []
  | c :: s' =>
      if is_high_surrogate c then
        match s' with
        | d :: s'' =>
            if is_low_surrogate d then c :: d :: quote_chars s''
            else quote_unit c ++ quote_chars s'
        | [] => quote_unit c
        end
      else quote_unit c ++ quote_chars s'
  end.

(** QuoteJSONString. *)
Definition quote (s : jsstring) : jsstring :=
  (34%N :: quote_chars s) ++ [34%N].

(** *** Serializing a list of todos *)

(** The run-time value of a [Todo]: an object with the properties [id],
    [title] and [completed], created in that order. *)
Definition value_of_Todo (t : Todo) : jsvalue :=
  JObject [(lit "id", JString (id t));
           (lit "title", JString (title t));
           (lit "completed", JBool (completed t))].

(** SerializeJSONObject on a [Todo]: the properties in creation order, each
    as its quoted key, a colon and its value, separated by commas, in
    braces, without white space. *)
Definition stringify_Todo (t : Todo) : jsstring :=
  lit "{" ++ quote (lit "id") ++ lit ":" ++ quote (id t)
  ++ lit "," ++ quote (lit "title") ++ lit ":" ++ quote (title t)
  ++ lit "," ++ quote (lit "completed") ++ lit ":"
  ++ (if completed t then lit "true" else lit "false")
  ++ lit "}".

Fixpoint join_commas (parts : list jsstring) : jsstring :=
  match parts with
  | [] => []
  | [p] => p
  | p :: ps => p ++ lit "," ++ join_commas ps
  end.

(** [JSON.stringify(todos)] at the type [Todo[]]: SerializeJSONArray over
    the elements. *)
Definition stringify (todos : list Todo) : jsstring :=
  lit "[" ++ join_commas (List.map stringify_Todo todos) ++ lit "]".

End JSON.

Import JSON.

(** ** Local storage *)

(** The storage area: at most one string under each key. *)
Definition Storage := jsstring -> option jsstring.

Definition emptyStorage : Storage := fun _ => None.

(** [localStorage.getItem(key)]: the string under [key], or null. *)
Definition getItem (st : Storage) (key : jsstring) : option jsstring := st key.

(** [localStorage.setItem(key, text)].  The write always succeeds: a storage
    that is full or disabled is not modelled. *)
Definition setItem (st : Storage) (key text : jsstring) : Storage :=
  fun k => if str_eqb k key then Some text else st k.

(** ** Helpers of [App.tsx] *)

Definition STORAGE_KEY : jsstring := lit "todos-v2".

(** The two readings of the environment one call of [uid] makes:
    [Math.random()], a number in [0, 1), given by the digits of its fraction
    in base 36, and [Date.now()], a number of milliseconds. *)
Record Env : Type := {
  random : list N;
  now : N
}.

(** A digit below 36 as 0-9, a-z. *)
Definition digit36 (d : N) : code_unit :=
  if (d <? 10)%N then (48 + d)%N else (87 + d)%N.

(** [r.toString(36)] for [r] in [0, 1): the text 0, then a point and the
    digits of the fraction when there are any. *)
Definition fraction_toString36 (digits : list N) : jsstring :=
  match digits with
  | [] => lit "0"
  | _ :: _ => lit "0." ++ List.map digit36 digits
  end.

Fixpoint digits36 (fuel : nat) (n : N) (acc : jsstring) : jsstring :=
  match fuel with
  | O => acc
  | S fuel' =>
      let acc' := digit36 (n mod 36) :: acc in
      if (n / 36 =? 0)%N then acc' else digits36 fuel' (n / 36)%N acc'
  end.

(** [n.toString(36)] for a natural number [n]; a number has no more digits
    in base 36 than it has bits. *)
Definition nat_toString36 (n : N) : jsstring :=
  digits36 (S (N.to_nat (N.log2 n))) n [].

(** [Math.random().toString(36).slice(2, 9) + Date.now().toString(36)]. *)
Definition uid (e : Env) : jsstring :=
  slice 2 9 (fraction_toString36 (random e)) ++ nat_toString36 (now e).

(** ** The hook [useTodos] *)

(** [x || d] for [x] a string or null: null and the empty string are
    falsy. *)
Definition or_else (x : option jsstring) (d : jsstring) : jsstring :=
  match x with
  | Some (c :: s) => c :: s
  | Some [] => d
  | None => d
  end.

(** The body of the [try] block of the state initializer, given the
    completion of the storage read: the array to return when the block
    returns one, nothing when control leaves the block at its end. *)
Definition load_try (read : completion (option jsstring))
  : completion (option (list jsvalue)) :=
  item <- read ;;
  saved <- JSON.parse (or_else item (lit "[]")) ;;
  Normal (match saved with
          | JArray elems => Some elems
          | _ => None
          end).

(** The state initializer: what the [try] block returned, and the empty
    array when it threw or fell through. *)
Definition load_from (read : completion (option jsstring)) : list jsvalue :=
  match load_try read with
  | Normal (Some saved) => saved
  | Normal None => []
  | Throw => []
  end.

Definition load (st : Storage) : list jsvalue :=
  load_from (Normal (getItem st STORAGE_KEY)).

(** The effect that follows every change of [todos]. *)
Definition write (todos : list Todo) (st : Storage) : Storage :=
  setItem st STORAGE_KEY (JSON.stringify todos).

(** Reading a property of a value that is an object. *)
Fixpoint get_prop (k : jsstring) (ps : list (jsstring * jsvalue)) : option jsvalue :=
  match ps with
  | [] => None
  | (k', v) :: ps' => if str_eqb k' k then Some v else get_prop k ps'
  end.

(** The cast [saved as Todo[]] checks nothing.  [Todo_of_value] is the
    element read at its declared type: it is defined on the objects whose
    [id] and [title] are strings and whose [completed] is a boolean. *)
Definition Todo_of_value (v : jsvalue) : option Todo :=
  match v with
  | JObject ps =>
      match get_prop (lit "id") ps, get_prop (lit "title") ps,
            get_prop (lit "completed") ps with
      | Some (JString i), Some (JString t), Some (JBool c) =>
          Some {| id := i; title := t; completed := c |}
      | _, _, _ => None
      end
  | _ => None
  end.

(** A stored text has the shape of a todo list when it parses to an array
    whose elements all read as a [Todo]. *)
Definition has_Todo_shape (v : jsvalue) : bool :=
  match Todo_of_value v with
  | Some _ => true
  | None => false
  end.

Definition stored_shape_ok (text : jsstring) : bool :=
  match JSON.parse text with
  | Normal (JArray elems) => forallb has_Todo_shape elems
  | _ => false
  end.

(** [addTodo], [removeTodo] and [toggleTodo] as the functions they hand to
    [setTodos]; [addTodo] makes one call of [uid]. *)
Definition addTodo (e : Env) (title : jsstring) (curr : list Todo) : list Todo :=
  {| id := uid e; title := title; completed := false |} :: curr.

Definition removeTodo (i : jsstring) (curr : list Todo) : list Todo :=
  filter (fun t => negb (str_eqb (id t) i)) curr.

Definition toggleTodo (i : jsstring) (curr : list Todo) : list Todo :=
  List.map (fun t =>
         if str_eqb (id t) i
         then {| id := id t; title := title t; completed := negb (completed t) |}
         else t) curr.

(** ** The page [Home] *)

(** [todos.filter((t) => t.completed).length]. *)
Definition completed_count (todos : list Todo) : nat :=
  List.length (filter (fun t => completed t) todos).

(** The two numbers of the header, [{completed}/{todos.length} done]. *)
Definition done_counter (todos : list Todo) : nat * nat :=
  (completed_count todos, List.length todos).

(** The state of the page: the list and the text of the input. *)
Record Home : Type := {
  todos : list Todo;
  value : jsstring
}.

(** The calls a handler of the page makes on the setters of its state. *)
Inductive call : Type :=
| Call_addTodo (title : jsstring)
| Call_setValue (text : jsstring).

(** [onSubmit], given the text of the input: it trims the text, returns when
    the result is the empty string ([!v] holds of the empty string only),
    and otherwise calls [addTodo(v)] and [setValue("")]. *)
Definition onSubmit (value : jsstring) : list call :=
  let v := trim value in
  match v with
  | [] => []
  | _ :: _ => [Call_addTodo v; Call_setValue []]
  end.

(** The effect of one call on the state; [e] is what [uid] reads. *)
Definition run_call (e : Env) (h : Home) (c : call) : Home :=
  match c with
  | Call_addTodo t => {| todos := addTodo e t (todos h); value := value h |}
  | Call_setValue text => {| todos := todos h; value := text |}
  end.

(** Submitting the form. *)
Definition submit (e : Env) (h : Home) : Home :=
  fold_left (run_call e) (onSubmit (value h)) h.

(** A run of [addTodo] calls, one reading of the environment for each. *)
Fixpoint adds (calls : list (Env * jsstring)) (curr : list Todo) : list Todo :=
  match calls with
  | [] => curr
  | (e, title) :: calls' => adds calls' (addTodo e title curr)
  end.

(** ** Notions the statements use *)

(** The ids of a list, in order. *)
Definition ids (l : list Todo) : list jsstring := List.map id l.

(** The item [toggleTodo] puts in the place of a matching one. *)
Definition flipped (t : Todo) : Todo :=
  {| id := id t; title := title t; completed := negb (completed t) |}.

(** The number of items whose [completed] is true, counted item by item. *)
Fixpoint completed_items (l : list Todo) : nat :=
  match l with
  | [] => 0
  | t :: l' => (if completed t then 1 else 0) + completed_items l'
  end.

(** A text made of white space only, the empty text included. *)
Definition blank (s : jsstring) : bool := forallb is_white_space s.

(** The number a text in base 36 stands for. *)
Definition digit36_value (c : code_unit) : N :=
  if (c <? 58)%N then (c - 48)%N else (c - 87)%N.

Definition of_base36 (s : jsstring) : N :=
  fold_left (fun a c => (a * 36 + digit36_value c)%N) s 0%N.

(** A JSON text written with apostrophes for its double quotes. *)
Definition json_text (s : string) : jsstring :=
  List.map (fun c => if (c =? 39)%N then 34%N else c) (lit s).

(** Stored texts and readings of the environment used as inputs below. *)
Definition untitled_blob : jsstring := json_text "[{'title':'x'}]".

Definition twin_blob : jsstring :=
  json_text "[{'id':'k','title':'a','completed':false},{'id':'k','title':'b','completed':true}]".

Definition twin_a : Todo := {| id := lit "k"; title := lit "a"; completed := false |}.
Definition twin_b : Todo := {| id := lit "k"; title := lit "b"; completed := true |}.

Definition env0 : Env := {| random := [18; 3; 35; 0; 1; 2; 3; 4; 5]%N; now := 1700000000000%N |}.
Definition env2 : Env := {| random := [18; 3; 35; 0; 1; 2; 3; 30; 22]%N; now := 1700000000000%N |}.
Definition env1 : Env := {| random := [7; 30; 11; 2; 9; 9; 14; 0; 1]%N; now := 1700000000417%N |}.
Definition env3 : Env := {| random := [18]%N; now := 10163329722368%N |}.
Definition env4 : Env := {| random := [18; 3]%N; now := 1700000000000%N |}.

Definition item_A : Todo := {| id := lit "a"; title := lit "A"; completed := false |}.
Definition item_B : Todo := {| id := lit "b"; title := lit "B"; completed := true |}.
Definition item_C : Todo := {| id := lit "c"; title := lit "C"; completed := false |}.

(** ** The hook [useDarkMode] *)

(** The key of the saved preference. *)
Definition prefers_dark : jsstring := lit "prefers-dark".

(** [JSON.stringify(b)] for a boolean [b]. *)
Definition stringify_boolean (b : bool) : jsstring :=
  if b then lit "true" else lit "false".

(** The state initializer of [useDarkMode].  [has_window] says whether
    [typeof window] is not "undefined"; [read] is the completion of
    [localStorage.getItem("prefers-dark")]; [media] is what the media query
    [(prefers-color-scheme: dark)] matches, and nothing when
    [window.matchMedia] is missing, in which case the optional chain gives
    undefined.  The result is a value, or undefined, or an exception: this
    initializer has no [try]. *)
Definition initial_dark_from (has_window : bool)
  (read : completion (option jsstring)) (media : option bool)
  : completion (option jsvalue) :=
  if has_window then
    saved <- read ;;
    match saved with
    | Some (c :: s) => v <- JSON.parse (c :: s) ;; Normal (Some v)
    | Some [] => Normal (option_map JBool media)
    | None => Normal (option_map JBool media)
    end
  else Normal (Some (JBool false)).

Definition initial_dark (has_window : bool) (st : Storage) (media : option bool)
  : completion (option jsvalue) :=
  initial_dark_from has_window (Normal (getItem st prefers_dark)) media.

(** The class list of the root element: an ordered set of tokens.
    [classList.add] appends a token that is not there; [classList.remove]
    takes the token out. *)
Definition classList_add (token : jsstring) (classes : list jsstring)
  : list jsstring :=
  if existsb (str_eqb token) classes then classes else classes ++ [token].

Definition classList_remove (token : jsstring) (classes : list jsstring)
  : list jsstring :=
  filter (fun c => negb (str_eqb c token)) classes.

(** The effect of [useDarkMode]: it saves the preference and sets or clears
    the class [dark] on the root element. *)
Definition dark_effect (dark : bool) (st : Storage) (classes : list jsstring)
  : Storage * list jsstring :=
  (setItem st prefers_dark (stringify_boolean dark),
   if dark then classList_add (lit "dark") classes
   else classList_remove (lit "dark") classes).

(** The text the effect saves for a state that is a boolean or undefined:
    [JSON.stringify(undefined)] is undefined, which [setItem] stores as the
    text undefined. *)
Definition saved_dark (dark : option bool) : jsstring :=
  match dark with
  | Some b => stringify_boolean b
  | None => lit "undefined"
  end.

(** The effect on the state as the initializer can leave it on a storage
    that only this page has written: a boolean, or undefined when nothing
    is saved and [matchMedia] is missing.  Undefined is falsy, so the class
    is cleared. *)
Definition dark_effect_on (dark : option bool) (st : Storage)
  (classes : list jsstring) : Storage * list jsstring :=
  match dark with
  | Some b => dark_effect b st classes
  | None => (setItem st prefers_dark (saved_dark None),
             classList_remove (lit "dark") classes)
  end.

(** ** The component [TodoList] *)

(** What one [li] of the list shows and does: its key, the state and the
    label of its checkbox with the id the checkbox hands to [onToggle], the
    class and the text of its title, and the label of its delete button
    with the id the button of the dialog hands to [onRemove]. *)
Record Row : Type := {
  key : jsstring;
  checked : bool;
  ariaLabel : jsstring;
  onCheckedChange : jsstring;
  className : jsstring;
  children : jsstring;
  deleteLabel : jsstring;
  onClick : jsstring
}.

Definition row (t : Todo) : Row :=
  {| key := id t;
     checked := completed t;
     ariaLabel := lit "Mark " ++ title t ++ lit " as "
                  ++ (if completed t then lit "incomplete" else lit "complete");
     onCheckedChange := id t;
     className := lit "flex-1 text-slate-800 dark:text-slate-100 "
                  ++ (if completed t then lit "line-through opacity-60" else []);
     children := title t;
     deleteLabel := lit "Delete " ++ title t;
     onClick := id t |}.

(** What [TodoList] renders: the card that says there are no todos when
    [todos.length] is zero, and otherwise the list of rows. *)
Inductive rendering : Type :=
| EmptyCard
| Rows (rows : list Row).

Definition TodoList (todos : list Todo) : rendering :=
  match todos with
  | [] => EmptyCard
  | _ :: _ => Rows (List.map row todos)
  end.

(** ** A session of the page *)

(** The state of [Home] with its two hooks, the storage and the class list
    of the root element.  The list is a list of [Todo] records; the dark
    mode state is a boolean, or undefined. *)
Record Session : Type := {
  page : Home;
  dark : option bool;
  storage : Storage;
  classList : list jsstring
}.

(** What the user does: submits the form, types in the input, clicks the
    checkbox or confirms the deletion of the row of an id, flips the
    switch. *)
Inductive event : Type :=
| Submit (e : Env)
| Change (text : jsstring)
| Check (i : jsstring)
| Delete (i : jsstring)
| Switch (b : bool).

(** The first render with the states [l] and [d], followed by the two
    effects, in the order of the hooks: [useTodos], then [useDarkMode]. *)
Definition mount (l : list Todo) (d : option bool) (st : Storage)
  (classes : list jsstring) : Session :=
  let after := dark_effect_on d (write l st) classes in
  {| page := {| todos := l; value := [] |};
     dark := d;
     storage := fst after;
     classList := snd after |}.

(** An element of the loaded array at the type [Todo], when it is an object
    with exactly the properties [id], [title] and [completed], in this
    order, holding a string, a string and a boolean: the objects that
    [addTodo] makes and that the page writes. *)
Definition exact_Todo (v : jsvalue) : option Todo :=
  match v with
  | JObject [(k1, JString i); (k2, JString t); (k3, JBool c)] =>
      if str_eqb k1 (lit "id") && str_eqb k2 (lit "title")
         && str_eqb k3 (lit "completed")
      then Some {| id := i; title := t; completed := c |}
      else None
  | _ => None
  end.

Fixpoint as_Todos (vs : list jsvalue) : option (list Todo) :=
  match vs with
  | [] => Some []
  | v :: vs' =>
      match exact_Todo v, as_Todos vs' with
      | Some t, Some l => Some (t :: l)
      | _, _ => None
      end
  end.

(** What the initializer of [useDarkMode] returned, when it is a boolean or
    undefined. *)
Definition as_dark (d : option jsvalue) : option (option bool) :=
  match d with
  | None => Some None
  | Some (JBool b) => Some (Some b)
  | Some _ => None
  end.

(** The page starting in a browser on the storage [st]: the two state
    initializers run on [st], then the first render and the effects.  The
    start throws when the initializer of [useDarkMode] throws.  It gives a
    session when the loaded array holds [Todo] records as above and the
    dark mode state is a boolean or undefined; on any other content of the
    storage the code goes on with values that a [Session] does not
    describe, and [start] gives nothing. *)
Definition start (st : Storage) (media : option bool) (classes : list jsstring)
  : completion (option Session) :=
  d <- initial_dark true st media ;;
  Normal (match as_Todos (load st), as_dark d with
          | Some l, Some d' => Some (mount l d' st classes)
          | _, _ => None
          end).

(** The session with a new list, after the effect that depends on
    [todos]. *)
Definition with_todos (s : Session) (h : Home) : Session :=
  {| page := h;
     dark := dark s;
     storage := write (todos h) (storage s);
     classList := classList s |}.

(** The session after [setDark(b)] changed the state, and the effect that
    depends on [dark]. *)
Definition with_dark (s : Session) (b : bool) : Session :=
  let after := dark_effect b (storage s) (classList s) in
  {| page := page s;
     dark := Some b;
     storage := fst after;
     classList := snd after |}.

(** One event: the handler, the render, and the effects whose dependency
    changed.  The setters of [todos] always build a new array, so their
    effect runs; [setValue] alone leaves [todos] as it is; [setDark] with the
    current value changes nothing. *)
Definition step (s : Session) (ev : event) : Session :=
  match ev with
  | Submit e =>
      match onSubmit (value (page s)) with
      | [] => s
      | _ :: _ => with_todos s (submit e (page s))
      end
  | Change text =>
      {| page := {| todos := todos (page s); value := text |};
         dark := dark s;
         storage := storage s;
         classList := classList s |}
  | Check i =>
      with_todos s {| todos := toggleTodo i (todos (page s)); value := value (page s) |}
  | Delete i =>
      with_todos s {| todos := removeTodo i (todos (page s)); value := value (page s) |}
  | Switch b =>
      match dark s with
      | Some b' => if Bool.eqb b b' then s else with_dark s b
      | None => with_dark s b
      end
  end.

Definition run (s : Session) (evs : list event) : Session :=
  fold_left step evs s.

(** ** More notions the statements use *)

(** The number of items with a given id. *)
Definition count_id (i : jsstring) (l : list Todo) : nat :=
  List.length (filter (fun t => str_eqb (id t) i) l).

(** The items with the id [i] that are completed, and those that are not. *)
Definition count_id_done (i : jsstring) (l : list Todo) : nat :=
  List.length (filter (fun t => str_eqb (id t) i && completed t) l).

Definition count_id_open (i : jsstring) (l : list Todo) : nat :=
  List.length (filter (fun t => str_eqb (id t) i && negb (completed t)) l).

(** A title as [onSubmit] passes it: not empty, and trimmed. *)
Definition tidy (t : jsstring) : Prop := t <> [] /\ trim t = t.

Definition all_tidy (l : list Todo) : Prop := Forall (fun t => tidy (title t)) l.

(** The characters 0-9 and a-z. *)
Definition is_base36 (c : code_unit) : bool :=
  ((48 <=? c) && (c <=? 57) || (97 <=? c) && (c <=? 122))%N.

(** The part of the random number that [uid] keeps. *)
Definition random_part (e : Env) : jsstring :=
  slice 2 9 (fraction_toString36 (random e)).

(** The storage and the class list agree with the state: the two saved
    texts are those of the current list and of the current dark mode state,
    and the root element has the class [dark] exactly in dark mode. *)
Definition in_sync (s : Session) : Prop :=
  getItem (storage s) STORAGE_KEY = Some (JSON.stringify (todos (page s)))
  /\ getItem (storage s) prefers_dark = Some (saved_dark (dark s))
  /\ (In (lit "dark") (classList s) <-> dark s = Some true).

(** The rows of a rendering; the empty card has none. *)
Definition rows_of (r : rendering) : list Row :=
  match r with
  | EmptyCard => []
  | Rows rows => rows
  end.

(** The item [addTodo] makes for a call. *)
Definition new_item (c : Env * jsstring) : Todo :=
  {| id := uid (fst c); title := snd c; completed := false |}.

Unset Implicit Arguments.

(** Decides the tests on literal characters that a parsing step leaves in
    the goal. *)
Ltac literal_tests :=
  repeat match goal with
    | |- context [is_ws (Npos ?p)] =>
        let b := eval vm_compute in (is_ws (Npos p)) in
        lazymatch b with
        | true => change (is_ws (Npos p)) with true
        | false => change (is_ws (Npos p)) with false
        end
    | |- context [N.eqb (Npos ?p) (Npos ?q)] =>
        let b := eval vm_compute in (N.eqb (Npos p) (Npos q)) in
        lazymatch b with
        | true => change (N.eqb (Npos p) (Npos q)) with true
        | false => change (N.eqb (Npos p) (Npos q)) with false
        end
    end;
  cbv iota.

(** * Strings *)

Lemma str_eqb_refl (a : jsstring) : str_eqb a a = true.
Proof.
  induction a as [|x a IH]; simpl; [reflexivity|].
  now rewrite N.eqb_refl, IH.
Qed.

Lemma str_eqb_eq (a b : jsstring) : str_eqb a b = true <-> a = b.
Proof.
  split; [|intros ->; apply str_eqb_refl].
  revert b; induction a as [|x a IH]; intros [|y b]; simpl; try discriminate; auto.
  intros H; apply andb_true_iff in H as [Hx Hab].
  apply N.eqb_eq in Hx; subst y. now rewrite (IH b Hab).
Qed.

Lemma str_eqb_neq (a b : jsstring) : str_eqb a b = false <-> a <> b.
Proof.
  rewrite <- str_eqb_eq. destruct (str_eqb a b); split; congruence.
Qed.

(** * Hexadecimal escapes *)

Lemma hex_value_digit (d : N) : (d < 16)%N -> hex_value (hex_digit d) = Some d.
Proof.
  intros H.
  assert (E : In d [0;1;2;3;4;5;6;7;8;9;10;11;12;13;14;15]%N).
  { simpl. lia. }
  simpl in E.
  repeat (destruct E as [<-|E]; [reflexivity|]). contradiction.
Qed.

Lemma hex4_value_escape (c : code_unit) :
  (c < 65536)%N ->
  hex4_value (hex_digit (c / 4096 mod 16)) (hex_digit (c / 256 mod 16))
             (hex_digit (c / 16 mod 16)) (hex_digit (c mod 16)) = Some c.
Proof.
  intros H. unfold hex4_value.
  rewrite !hex_value_digit by (apply N.mod_lt; discriminate).
  f_equal.
  assert (E1 := N.div_mod c 16).
  assert (E2 := N.div_mod (c / 16) 16).
  assert (E3 := N.div_mod (c / 256) 16).
  assert (D2 : (c / 16 / 16 = c / 256)%N) by (rewrite N.Div0.div_div; reflexivity).
  assert (D3 : (c / 256 / 16 = c / 4096)%N) by (rewrite N.Div0.div_div; reflexivity).
  assert (B : (c / 4096 < 16)%N) by (apply N.Div0.div_lt_upper_bound; lia).
  rewrite (N.mod_small (c / 4096) 16) by assumption.
  lia.
Qed.

(** * Quoting and reading back a string *)

Lemma parse_string_unit (c : code_unit) (rest : jsstring) :
  parse_string (quote_unit c ++ rest) = mapParsed (cons c) (parse_string rest).
Proof.
  unfold quote_unit.
  destruct (c =? 8)%N eqn:E8; [apply N.eqb_eq in E8; subst; reflexivity|].
  destruct (c =? 9)%N eqn:E9; [apply N.eqb_eq in E9; subst; reflexivity|].
  destruct (c =? 10)%N eqn:E10; [apply N.eqb_eq in E10; subst; reflexivity|].
  destruct (c =? 12)%N eqn:E12; [apply N.eqb_eq in E12; subst; reflexivity|].
  destruct (c =? 13)%N eqn:E13; [apply N.eqb_eq in E13; subst; reflexivity|].
  destruct (c =? 34)%N eqn:E34; [apply N.eqb_eq in E34; subst; reflexivity|].
  destruct (c =? 92)%N eqn:E92; [apply N.eqb_eq in E92; subst; reflexivity|].
  destruct ((c <? 32)%N || is_high_surrogate c || is_low_surrogate c) eqn:E.
  - assert (B : (c < 65536)%N).
    { unfold is_high_surrogate, is_low_surrogate in E.
      apply orb_true_iff in E as [E|E];
        [apply orb_true_iff in E as [E|E]|];
        [apply N.ltb_lt in E
        |apply andb_true_iff in E as [_ E]; apply N.leb_le in E
        |apply andb_true_iff in E as [_ E]; apply N.leb_le in E]; lia. }
    unfold unicode_escape. cbn [app parse_string].
    literal_tests.
    now rewrite hex4_value_escape by exact B.
  - apply orb_false_iff in E as [E _]. apply orb_false_iff in E as [E _].
    cbn [app parse_string]. now rewrite E34, E92, E.
Qed.

Lemma parse_string_pair (c d : code_unit) (rest : jsstring) :
  is_high_surrogate c = true -> is_low_surrogate d = true ->
  parse_string (c :: d :: rest)
  = mapParsed (cons c) (mapParsed (cons d) (parse_string rest)).
Proof.
  unfold is_high_surrogate, is_low_surrogate. intros Hc Hd.
  apply andb_true_iff in Hc as [Hc _]. apply andb_true_iff in Hd as [Hd _].
  apply N.leb_le in Hc, Hd.
  cbn [parse_string].
  assert (Ec : (c =? 34)%N = false) by (apply N.eqb_neq; lia).
  assert (Ec' : (c =? 92)%N = false) by (apply N.eqb_neq; lia).
  assert (Ec'' : (c <? 32)%N = false) by (apply N.ltb_ge; lia).
  assert (Ed : (d =? 34)%N = false) by (apply N.eqb_neq; lia).
  assert (Ed' : (d =? 92)%N = false) by (apply N.eqb_neq; lia).
  assert (Ed'' : (d <? 32)%N = false) by (apply N.ltb_ge; lia).
  now rewrite Ec, Ec', Ec'', Ed, Ed', Ed''.
Qed.

Lemma parse_string_chars_bounded (n : nat) :
  forall s rest, List.length s <= n ->
    parse_string (quote_chars s ++ 34%N :: rest) = Parsed s rest.
Proof.
  induction n as [|n IH]; intros s rest Hn.
  - destruct s; [reflexivity | simpl in Hn; lia].
  - destruct s as [|c s]; [reflexivity|].
    simpl in Hn. cbn [quote_chars].
    destruct (is_high_surrogate c) eqn:Hc.
    + destruct s as [|d s].
      * rewrite parse_string_unit. reflexivity.
      * destruct (is_low_surrogate d) eqn:Hd.
        -- rewrite <- !app_comm_cons. rewrite parse_string_pair by assumption.
           rewrite IH by (simpl in Hn; lia). reflexivity.
        -- rewrite <- app_assoc, parse_string_unit.
           rewrite IH by lia. reflexivity.
    + rewrite <- app_assoc, parse_string_unit.
      rewrite IH by lia. reflexivity.
Qed.

Lemma parse_string_quote_chars (s rest : jsstring) :
  parse_string (quote_chars s ++ 34%N :: rest) = Parsed s rest.
Proof. apply parse_string_chars_bounded with (n := List.length s). apply le_n. Qed.

(** * The parser consumes text and has fuel enough *)

Lemma skip_ws_length (s : jsstring) : List.length (skip_ws s) <= List.length s.
Proof.
  induction s as [|c s IH]; simpl; [lia|].
  destruct (is_ws c); simpl; lia.
Qed.

Lemma mapParsed_inv {A B} (f : A -> B) (o : outcome A) (b : B) (r : jsstring) :
  mapParsed f o = Parsed b r -> exists a, o = Parsed a r /\ b = f a.
Proof.
  destruct o; simpl; try discriminate.
  intros [= <- <-]. eauto.
Qed.

Lemma parse_string_length_bounded (n : nat) :
  forall s x r, List.length s <= n -> parse_string s = Parsed x r ->
    List.length r < List.length s.
Proof.
  induction n as [|n IH]; intros s x r Hn H.
  - destruct s; [discriminate | simpl in Hn; lia].
  - destruct s as [|c s]; [discriminate|].
    cbn [parse_string] in H. simpl in Hn |- *.
    destruct (c =? 34)%N; [injection H as <- <-; lia|].
    destruct (c =? 92)%N.
    + destruct s as [|e s]; [discriminate|].
      destruct (e =? 117)%N.
      * destruct s as [|h1 [|h2 [|h3 [|h4 s]]]]; try discriminate.
        destruct (hex4_value h1 h2 h3 h4); [|discriminate].
        apply mapParsed_inv in H as (a & H & _).
        apply IH in H; simpl in *; lia.
      * destruct (unescape e); [|discriminate].
        apply mapParsed_inv in H as (a & H & _).
        apply IH in H; simpl in *; lia.
    + destruct (c <? 32)%N; [discriminate|].
      apply mapParsed_inv in H as (a & H & _).
      apply IH in H; simpl in *; lia.
Qed.

Lemma parse_string_length (s x r : jsstring) :
  parse_string s = Parsed x r -> List.length r < List.length s.
Proof. apply parse_string_length_bounded with (n := List.length s). apply le_n. Qed.

Lemma mapParsed_fuel {A B} (f : A -> B) (o : outcome A) :
  mapParsed f o = OutOfFuel -> o = OutOfFuel.
Proof. destruct o; simpl; congruence. Qed.

Lemma parse_string_fuel_bounded (n : nat) :
  forall s, List.length s <= n -> parse_string s <> OutOfFuel.
Proof.
  induction n as [|n IH]; intros s Hn.
  - destruct s; [discriminate | simpl in Hn; lia].
  - destruct s as [|c s]; [discriminate|].
    cbn [parse_string]. simpl in Hn.
    destruct (c =? 34)%N; [discriminate|].
    destruct (c =? 92)%N.
    + destruct s as [|e s]; [discriminate|].
      destruct (e =? 117)%N.
      * destruct s as [|h1 [|h2 [|h3 [|h4 s]]]]; try discriminate.
        destruct (hex4_value h1 h2 h3 h4); [|discriminate].
        intros H; apply mapParsed_fuel in H. revert H. apply IH. simpl in *; lia.
      * destruct (unescape e); [|discriminate].
        intros H; apply mapParsed_fuel in H. revert H. apply IH. simpl in *; lia.
    + destruct (c <? 32)%N; [discriminate|].
      intros H; apply mapParsed_fuel in H. revert H. apply IH. lia.
Qed.

Lemma parse_string_fuel (s : jsstring) : parse_string s <> OutOfFuel.
Proof. apply parse_string_fuel_bounded with (n := List.length s). apply le_n. Qed.

Lemma span_digits_length (s : jsstring) :
  List.length (snd (span_digits s)) <= List.length s.
Proof.
  induction s as [|c s IH]; simpl; [lia|].
  destruct (is_digit c); [|simpl; lia].
  destruct (span_digits s); simpl in *; lia.
Qed.

Lemma parse_int_length (s x r : jsstring) :
  parse_int s = Parsed x r -> List.length r < List.length s.
Proof.
  destruct s as [|c s]; [discriminate|]. unfold parse_int.
  destruct (c =? 48)%N; [intros [= <- <-]; simpl; lia|].
  destruct (is_digit c); [|discriminate].
  pose proof (span_digits_length s) as L.
  destruct (span_digits s). intros [= <- <-]. simpl in *; lia.
Qed.

Lemma parse_frac_length (s x r : jsstring) :
  parse_frac s = Parsed x r -> List.length r <= List.length s.
Proof.
  destruct s as [|c s]; [intros [= <- <-]; simpl; lia|]. unfold parse_frac.
  destruct (c =? 46)%N; [|intros [= <- <-]; simpl; lia].
  pose proof (span_digits_length s) as L.
  destruct (span_digits s) as [[|d ds] r']; [discriminate|].
  intros [= <- <-]. simpl in *; lia.
Qed.

Lemma parse_exp_length (s x r : jsstring) :
  parse_exp s = Parsed x r -> List.length r <= List.length s.
Proof.
  destruct s as [|c s]; [intros [= <- <-]; simpl; lia|]. unfold parse_exp.
  destruct ((c =? 101) || (c =? 69))%N; [|intros [= <- <-]; simpl; lia].
  destruct s as [|g s].
  - simpl. discriminate.
  - destruct ((g =? 43) || (g =? 45))%N.
    + pose proof (span_digits_length s) as L.
      destruct (span_digits s) as [[|d ds] r']; [discriminate|].
      intros [= <- <-]. simpl in *; lia.
    + pose proof (span_digits_length (g :: s)) as L.
      destruct (span_digits (g :: s)) as [[|d ds] r']; [discriminate|].
      intros [= <- <-]. simpl in *; lia.
Qed.

Lemma parse_minus_length (s : jsstring) :
  List.length (snd (parse_minus s)) <= List.length s.
Proof.
  destruct s as [|c s]; simpl; [lia|]. destruct (c =? 45)%N; simpl; lia.
Qed.

Lemma parse_number_length (s x r : jsstring) :
  parse_number s = Parsed x r -> List.length r < List.length s.
Proof.
  unfold parse_number. pose proof (parse_minus_length s) as L0.
  destruct (parse_minus s) as [sign s1]. simpl in L0.
  destruct (parse_int s1) as [i s2| |] eqn:E1; try discriminate.
  apply parse_int_length in E1. simpl.
  destruct (parse_frac s2) as [f s3| |] eqn:E2; try discriminate.
  apply parse_frac_length in E2. simpl.
  destruct (parse_exp s3) as [e s4| |] eqn:E3; try discriminate.
  apply parse_exp_length in E3. simpl.
  intros [= <- <-]. lia.
Qed.

Lemma parse_number_fuel (s : jsstring) : parse_number s <> OutOfFuel.
Proof.
  unfold parse_number. destruct (parse_minus s) as [sign s1].
  assert (I : forall t, parse_int t <> OutOfFuel).
  { intros [|c t]; simpl; [discriminate|].
    destruct (c =? 48)%N; [discriminate|].
    destruct (is_digit c); [|discriminate]. destruct (span_digits t); discriminate. }
  assert (F : forall t, parse_frac t <> OutOfFuel).
  { intros [|c t]; simpl; [discriminate|].
    destruct (c =? 46)%N; [|discriminate].
    destruct (span_digits t) as [[|] ?]; discriminate. }
  assert (X : forall t, parse_exp t <> OutOfFuel).
  { intros [|c t]; unfold parse_exp; [discriminate|].
    destruct ((c =? 101) || (c =? 69))%N; [|discriminate].
    destruct t as [|g t]; [simpl; discriminate|].
    destruct ((g =? 43) || (g =? 45))%N;
      match goal with |- context [span_digits ?u] =>
        destruct (span_digits u) as [[|] ?] end; discriminate. }
  destruct (parse_int s1) as [i s2| |] eqn:E1; simpl; [|discriminate|now apply I in E1].
  destruct (parse_frac s2) as [f s3| |] eqn:E2; simpl; [|discriminate|now apply F in E2].
  destruct (parse_exp s3) as [e s4| |] eqn:E3; simpl; [|discriminate|now apply X in E3].
  discriminate.
Qed.

Lemma strip_prefix_length (p s r : jsstring) :
  strip_prefix p s = Some r -> List.length s = List.length p + List.length r.
Proof.
  revert s; induction p as [|x p IH]; intros [|y s]; simpl; try discriminate.
  - now intros [= <-].
  - now intros [= <-].
  - destruct (x =? y)%N; [|discriminate]. intros H. apply IH in H. lia.
Qed.

Lemma parse_literal_length (w : jsstring) (v : jsvalue) (s : jsstring) x r :
  w <> [] -> parse_literal w v s = Parsed x r -> List.length r < List.length s.
Proof.
  unfold parse_literal. intros Hw.
  destruct (strip_prefix w s) eqn:E; [|discriminate].
  intros [= <- <-]. apply strip_prefix_length in E.
  destruct w; [congruence|]. simpl in E. lia.
Qed.

Lemma parse_literal_fuel (w : jsstring) (v : jsvalue) (s : jsstring) :
  parse_literal w v s <> OutOfFuel.
Proof. unfold parse_literal. destruct (strip_prefix w s); discriminate. Qed.

Lemma andThen_inv {A B} (o : outcome A) (k : A -> jsstring -> outcome B) b r :
  andThen o k = Parsed b r -> exists a r0, o = Parsed a r0 /\ k a r0 = Parsed b r.
Proof. destruct o; simpl; try discriminate. eauto. Qed.

Lemma andThen_fuel {A B} (o : outcome A) (k : A -> jsstring -> outcome B) :
  andThen o k = OutOfFuel ->
  o = OutOfFuel \/ exists a r0, o = Parsed a r0 /\ k a r0 = OutOfFuel.
Proof. destruct o; simpl; try discriminate; eauto. Qed.

(** Whatever a parsing function reads, it reads at least one character. *)
Lemma parse_lengths (f : nat) :
  (forall s v r, parse_value f s = Parsed v r -> List.length r < List.length s)
  /\ (forall s vs r, parse_elements f s = Parsed vs r -> List.length r < List.length s)
  /\ (forall s ms r, parse_members f s = Parsed ms r -> List.length r < List.length s).
Proof.
  induction f as [|f (IHv & IHe & IHm)]; [repeat split; discriminate|].
  repeat split.
  - intros s v r. cbn [parse_value].
    pose proof (skip_ws_length s) as L.
    destruct (skip_ws s) as [|c t]; [discriminate|]. simpl in L.
    destruct (c =? 91)%N.
    { pose proof (skip_ws_length t) as L'.
      destruct (skip_ws t) as [|d t']; [discriminate|]. simpl in L'.
      destruct (d =? 93)%N; [intros [= <- <-]; lia|].
      intros H. apply mapParsed_inv in H as (a & H & _). apply IHe in H. lia. }
    destruct (c =? 123)%N.
    { pose proof (skip_ws_length t) as L'.
      destruct (skip_ws t) as [|d t']; [discriminate|]. simpl in L'.
      destruct (d =? 125)%N; [intros [= <- <-]; lia|].
      intros H. apply mapParsed_inv in H as (a & H & _). apply IHm in H. lia. }
    destruct (c =? 34)%N.
    { intros H. apply mapParsed_inv in H as (a & H & _).
      apply parse_string_length in H. lia. }
    destruct (c =? 116)%N.
    { intros H. apply parse_literal_length in H; [simpl in H; lia | discriminate]. }
    destruct (c =? 102)%N.
    { intros H. apply parse_literal_length in H; [simpl in H; lia | discriminate]. }
    destruct (c =? 110)%N.
    { intros H. apply parse_literal_length in H; [simpl in H; lia | discriminate]. }
    intros H. apply mapParsed_inv in H as (a & H & _).
    apply parse_number_length in H. simpl in H; lia.
  - intros s vs r. cbn [parse_elements]. intros H.
    apply andThen_inv in H as (v & r0 & Hv & H). apply IHv in Hv.
    pose proof (skip_ws_length r0) as L.
    destruct (skip_ws r0) as [|c t]; [discriminate|]. simpl in L.
    destruct (c =? 44)%N.
    { apply mapParsed_inv in H as (a & H & _). apply IHe in H. lia. }
    destruct (c =? 93)%N; [|discriminate].
    injection H as <- <-. lia.
  - intros s ms r. cbn [parse_members].
    pose proof (skip_ws_length s) as L.
    destruct (skip_ws s) as [|q t]; [discriminate|]. simpl in L.
    destruct (q =? 34)%N; [|discriminate]. intros H.
    apply andThen_inv in H as (k & r1 & Hk & H). apply parse_string_length in Hk.
    pose proof (skip_ws_length r1) as L1.
    destruct (skip_ws r1) as [|c r2]; [discriminate|]. simpl in L1.
    destruct (c =? 58)%N; [|discriminate].
    apply andThen_inv in H as (v & r3 & Hv & H). apply IHv in Hv.
    pose proof (skip_ws_length r3) as L3.
    destruct (skip_ws r3) as [|d r4]; [discriminate|]. simpl in L3.
    destruct (d =? 44)%N.
    { apply mapParsed_inv in H as (a & H & _). apply IHm in H. lia. }
    destruct (d =? 125)%N; [|discriminate].
    injection H as <- <-. lia.
Qed.

(** Two units of fuel for each character are enough. *)
Lemma parse_fuel_enough (f : nat) :
  (forall s, 2 * List.length s + 1 <= f -> parse_value f s <> OutOfFuel)
  /\ (forall s, 2 * List.length s + 2 <= f -> parse_elements f s <> OutOfFuel)
  /\ (forall s, 2 * List.length s + 1 <= f -> parse_members f s <> OutOfFuel).
Proof.
  induction f as [|f (IHv & IHe & IHm)]; [repeat split; intros; lia|].
  destruct (parse_lengths f) as (Lv & Le & Lm).
  repeat split.
  - intros s Hf. cbn [parse_value].
    pose proof (skip_ws_length s) as L.
    destruct (skip_ws s) as [|c t]; [discriminate|]. simpl in L.
    destruct (c =? 91)%N.
    { pose proof (skip_ws_length t) as L'.
      destruct (skip_ws t) as [|d t']; [discriminate|].
      destruct (d =? 93)%N; [discriminate|].
      intros H. apply mapParsed_fuel in H. revert H. apply IHe. lia. }
    destruct (c =? 123)%N.
    { pose proof (skip_ws_length t) as L'.
      destruct (skip_ws t) as [|d t']; [discriminate|].
      destruct (d =? 125)%N; [discriminate|].
      intros H. apply mapParsed_fuel in H. revert H. apply IHm. lia. }
    destruct (c =? 34)%N.
    { intros H. apply mapParsed_fuel in H. revert H. apply parse_string_fuel. }
    destruct (c =? 116)%N; [apply parse_literal_fuel|].
    destruct (c =? 102)%N; [apply parse_literal_fuel|].
    destruct (c =? 110)%N; [apply parse_literal_fuel|].
    intros H. apply mapParsed_fuel in H. revert H. apply parse_number_fuel.
  - intros s Hf. cbn [parse_elements]. intros H.
    apply andThen_fuel in H as [H|(v & r0 & Hv & H)].
    { revert H. apply IHv. lia. }
    apply Lv in Hv.
    pose proof (skip_ws_length r0) as L.
    destruct (skip_ws r0) as [|c t]; [discriminate|]. simpl in L.
    destruct (c =? 44)%N.
    { apply mapParsed_fuel in H. revert H. apply IHe. lia. }
    destruct (c =? 93)%N; discriminate.
  - intros s Hf. cbn [parse_members].
    pose proof (skip_ws_length s) as L.
    destruct (skip_ws s) as [|q t]; [discriminate|]. simpl in L.
    destruct (q =? 34)%N; [|discriminate]. intros H.
    apply andThen_fuel in H as [H|(k & r1 & Hk & H)].
    { revert H. apply parse_string_fuel. }
    apply parse_string_length in Hk.
    pose proof (skip_ws_length r1) as L1.
    destruct (skip_ws r1) as [|c r2]; [discriminate|]. simpl in L1.
    destruct (c =? 58)%N; [|discriminate].
    apply andThen_fuel in H as [H|(v & r3 & Hv & H)].
    { revert H. apply IHv. lia. }
    apply Lv in Hv.
    pose proof (skip_ws_length r3) as L3.
    destruct (skip_ws r3) as [|d r4]; [discriminate|]. simpl in L3.
    destruct (d =? 44)%N.
    { apply mapParsed_fuel in H. revert H. apply IHm. lia. }
    destruct (d =? 125)%N; discriminate.
Qed.

(** More fuel does not change a result that was reached. *)
Lemma parse_fuel_mono (f : nat) : forall f', f <= f' ->
  (forall s, parse_value f s <> OutOfFuel -> parse_value f' s = parse_value f s)
  /\ (forall s, parse_elements f s <> OutOfFuel -> parse_elements f' s = parse_elements f s)
  /\ (forall s, parse_members f s <> OutOfFuel -> parse_members f' s = parse_members f s).
Proof.
  induction f as [|f IH]; intros f' Hf.
  { repeat split; intros s H; exfalso; apply H; reflexivity. }
  destruct f' as [|f']; [lia|].
  destruct (IH f' ltac:(lia)) as (IHv & IHe & IHm).
  repeat split.
  - intros s. cbn [parse_value].
    destruct (skip_ws s) as [|c t]; [reflexivity|].
    destruct (c =? 91)%N.
    { destruct (skip_ws t) as [|d t']; [reflexivity|].
      destruct (d =? 93)%N; [reflexivity|].
      intros H. rewrite IHe; [reflexivity|].
      intros E. apply H. now rewrite E. }
    destruct (c =? 123)%N; [|reflexivity].
    destruct (skip_ws t) as [|d t']; [reflexivity|].
    destruct (d =? 125)%N; [reflexivity|].
    intros H. rewrite IHm; [reflexivity|].
    intros E. apply H. now rewrite E.
  - intros s. cbn [parse_elements]. intros H.
    rewrite IHv by (intros E; apply H; now rewrite E).
    destruct (parse_value f s) as [v r0| |]; simpl in *; try reflexivity.
    destruct (skip_ws r0) as [|c t]; [reflexivity|].
    destruct (c =? 44)%N; [|reflexivity].
    rewrite IHe; [reflexivity|].
    intros E. apply H. now rewrite E.
  - intros s. cbn [parse_members].
    destruct (skip_ws s) as [|q t]; [reflexivity|].
    destruct (q =? 34)%N; [|reflexivity].
    destruct (parse_string t) as [k r1| |]; simpl; try reflexivity.
    destruct (skip_ws r1) as [|c r2]; [reflexivity|].
    destruct (c =? 58)%N; [|reflexivity]. intros H.
    rewrite IHv by (intros E; apply H; now rewrite E).
    destruct (parse_value f r2) as [v r3| |]; simpl in *; try reflexivity.
    destruct (skip_ws r3) as [|d r4]; [reflexivity|].
    destruct (d =? 44)%N; [|reflexivity].
    rewrite IHm; [reflexivity|].
    intros E. apply H. now rewrite E.
Qed.

(** [parse] never stops for lack of fuel: a text that it rejects is rejected
    for its syntax. *)
Lemma parse_never_out_of_fuel (text : jsstring) :
  parse_value (fuel_for text) text <> OutOfFuel.
Proof. apply parse_fuel_enough. unfold fuel_for. lia. Qed.

(** The result of [parse] does not depend on the fuel, once there is enough. *)
Lemma parse_value_enough (text : jsstring) (F : nat) :
  fuel_for text <= F -> parse_value (fuel_for text) text = parse_value F text.
Proof.
  intros HF. symmetry.
  apply (parse_fuel_mono (fuel_for text) F HF).
  apply parse_never_out_of_fuel.
Qed.

(** Some texts [parse] accepts, and some it rejects. *)
Example parse_nested :
  JSON.parse (json_text " { 'a' : [ 1.5e3 , null , { } ] , 'b' : 'x\u0041\n' } ")
  = Normal (JObject [(lit "a", JArray [JNumber (lit "1.5e3"); JNull; JObject []]);
                     (lit "b", JString [120; 65; 10]%N)]).
Proof. reflexivity. Qed.

Example parse_repeated_key :
  JSON.parse (json_text "{'a':1,'b':2,'a':3}")
  = Normal (JObject [(lit "a", JNumber (lit "3")); (lit "b", JNumber (lit "2"))]).
Proof. reflexivity. Qed.

Example parse_rejects :
  List.map JSON.parse
    [json_text ""; json_text "[1,]"; json_text "01"; json_text "{'a':1"; json_text "'a";
     json_text "nul"; json_text "[1] 2"; json_text ".5"; json_text "{a:1}";
     [34; 9; 34]%N; [160; 49]%N]
  = repeat Throw 11.
Proof. reflexivity. Qed.

(** * Reading what [stringify] writes *)


Lemma parse_value_string (F : nat) (s rest : jsstring) :
  parse_value (S F) (quote s ++ rest) = Parsed (JString s) rest.
Proof.
  unfold quote. rewrite <- app_assoc. cbn [parse_value app skip_ws].
  literal_tests.
  now rewrite parse_string_quote_chars.
Qed.

Lemma parse_members_cons (F : nat) (k : jsstring) (v : jsvalue) body r ms r' :
  parse_value F body = Parsed v (44%N :: r) ->
  parse_members F r = Parsed ms r' ->
  parse_members (S F) (quote k ++ 58%N :: body) = Parsed ((k, v) :: ms) r'.
Proof.
  intros Hv Hm. unfold quote. rewrite <- app_assoc.
  cbn [parse_members app skip_ws].
  literal_tests.
  rewrite parse_string_quote_chars. cbn [andThen skip_ws].
  literal_tests.
  rewrite Hv. cbn [andThen skip_ws].
  literal_tests.
  now rewrite Hm.
Qed.

Lemma parse_members_last (F : nat) (k : jsstring) (v : jsvalue) body r :
  parse_value F body = Parsed v (125%N :: r) ->
  parse_members (S F) (quote k ++ 58%N :: body) = Parsed [(k, v)] r.
Proof.
  intros Hv. unfold quote. rewrite <- app_assoc.
  cbn [parse_members app skip_ws].
  literal_tests.
  rewrite parse_string_quote_chars. cbn [andThen skip_ws].
  literal_tests.
  rewrite Hv. cbn [andThen skip_ws].
  literal_tests.
  reflexivity.
Qed.

Lemma parse_value_object (F : nat) (k body : jsstring) ms r :
  parse_members F (quote k ++ body) = Parsed ms r ->
  parse_value (S F) (123%N :: quote k ++ body) = Parsed (make_object ms) r.
Proof.
  intros Hm. cbn [parse_value skip_ws].
  literal_tests.
  unfold quote in *. rewrite <- app_assoc in *. cbn [app skip_ws] in *.
  literal_tests.
  now rewrite Hm.
Qed.

Lemma parse_value_true (F : nat) (rest : jsstring) :
  parse_value (S F) (lit "true" ++ rest) = Parsed (JBool true) rest.
Proof. reflexivity. Qed.

Lemma parse_value_false (F : nat) (rest : jsstring) :
  parse_value (S F) (lit "false" ++ rest) = Parsed (JBool false) rest.
Proof. reflexivity. Qed.

Lemma parse_value_Todo (F : nat) (t : Todo) (rest : jsstring) :
  parse_value (5 + F) (stringify_Todo t ++ rest) = Parsed (value_of_Todo t) rest.
Proof.
  unfold stringify_Todo.
  change (lit "{") with [123%N]. change (lit ":") with [58%N].
  change (lit ",") with [44%N]. change (lit "}") with [125%N].
  repeat rewrite <- app_assoc. cbn [app plus].
  apply parse_value_object with
    (ms := [(lit "id", JString (id t)); (lit "title", JString (title t));
            (lit "completed", JBool (completed t))]).
  eapply parse_members_cons; [apply parse_value_string|].
  eapply parse_members_cons; [apply parse_value_string|].
  eapply parse_members_last.
  destruct (completed t); [apply parse_value_true|apply parse_value_false].
Qed.

Lemma parse_elements_last (F : nat) (s : jsstring) (v : jsvalue) (r : jsstring) :
  parse_value F s = Parsed v (93%N :: r) ->
  parse_elements (S F) s = Parsed [v] r.
Proof. intros H. cbn [parse_elements]. rewrite H. reflexivity. Qed.

Lemma parse_elements_cons (F : nat) (s : jsstring) (v : jsvalue) r vs r' :
  parse_value F s = Parsed v (44%N :: r) ->
  parse_elements F r = Parsed vs r' ->
  parse_elements (S F) s = Parsed (v :: vs) r'.
Proof.
  intros H H'. cbn [parse_elements]. rewrite H. cbn [andThen skip_ws].
  literal_tests. now rewrite H'.
Qed.

Lemma parse_elements_Todos (F : nat) (l : list Todo) : forall (t : Todo) (rest : jsstring),
  parse_elements (List.length l + 6 + F)
    (join_commas (List.map stringify_Todo (t :: l)) ++ 93%N :: rest)
  = Parsed (List.map value_of_Todo (t :: l)) rest.
Proof.
  induction l as [|u l IH]; intros t rest.
  - apply parse_elements_last. apply (parse_value_Todo F).
  - change (join_commas (List.map stringify_Todo (t :: u :: l)))
      with (stringify_Todo t ++ lit "," ++ join_commas (List.map stringify_Todo (u :: l))).
    change (lit ",") with [44%N]. rewrite <- !app_assoc. cbn [app].
    replace (List.length (u :: l) + 6 + F) with (S (List.length l + 6 + F)) by (simpl; lia).
    eapply parse_elements_cons; [|apply IH].
    replace (List.length l + 6 + F) with (5 + (List.length l + 1 + F)) by lia.
    apply parse_value_Todo.
Qed.

Lemma stringify_Todo_head (t : Todo) :
  exists tail, stringify_Todo t = 123%N :: tail.
Proof. unfold stringify_Todo. change (lit "{") with [123%N]. cbn [app]. eauto. Qed.

Lemma parse_value_array (F : nat) (c : code_unit) (body : jsstring) vs r :
  is_ws c = false -> (c =? 93)%N = false ->
  parse_elements F (c :: body) = Parsed vs r ->
  parse_value (S F) (91%N :: c :: body) = Parsed (JArray vs) r.
Proof.
  intros Hw Hc H. cbn [parse_value skip_ws].
  literal_tests.
  cbn [skip_ws]. rewrite Hw, Hc, H. reflexivity.
Qed.

Lemma stringify_cons_head (t : Todo) (l : list Todo) :
  exists tail, join_commas (List.map stringify_Todo (t :: l)) ++ [93%N] = 123%N :: tail.
Proof.
  destruct (stringify_Todo_head t) as [tail Et].
  cbn [List.map]. rewrite Et.
  destruct (List.map stringify_Todo l); cbn [join_commas app]; eauto.
Qed.

Lemma parse_value_stringify (F : nat) (l : list Todo) :
  parse_value (List.length l + 7 + F) (stringify l)
  = Parsed (JArray (List.map value_of_Todo l)) [].
Proof.
  destruct l as [|t l]; [reflexivity|].
  destruct (stringify_cons_head t l) as [tail Eh].
  assert (Es : stringify (t :: l) = 91%N :: 123%N :: tail).
  { unfold stringify. change (lit "[") with [91%N]. cbn [app]. f_equal. exact Eh. }
  assert (H : parse_elements (List.length l + 6 + F) (123%N :: tail)
              = Parsed (List.map value_of_Todo (t :: l)) []).
  { rewrite <- Eh. apply parse_elements_Todos. }
  rewrite Es.
  replace (List.length (t :: l) + 7 + F) with (S (List.length l + 6 + S F)) by (simpl; lia).
  apply parse_value_array; [reflexivity|reflexivity|].
  rewrite <- H.
  apply (parse_fuel_mono (List.length l + 6 + F) (List.length l + 6 + S F)); [lia|].
  rewrite H. discriminate.
Qed.

(** [JSON.parse(JSON.stringify(todos))] is the array of the todos. *)
Lemma parse_stringify (l : list Todo) :
  JSON.parse (stringify l) = Normal (JArray (List.map value_of_Todo l)).
Proof.
  unfold parse.
  rewrite parse_value_enough
    with (F := List.length l + 7 + fuel_for (stringify l)) by lia.
  rewrite parse_value_stringify. reflexivity.
Qed.

Lemma Todo_of_value_of_Todo (t : Todo) : Todo_of_value (value_of_Todo t) = Some t.
Proof. destruct t; reflexivity. Qed.

(** * Loading and writing *)

Lemma parse_empty_array : JSON.parse (lit "[]") = Normal (JArray []).
Proof. reflexivity. Qed.

Lemma parse_empty_text : JSON.parse [] = Throw.
Proof. reflexivity. Qed.

Lemma or_else_nonempty (text d : jsstring) :
  text <> [] -> or_else (Some text) d = text.
Proof. destruct text; [congruence | reflexivity]. Qed.

Lemma load_from_text (text : jsstring) :
  text <> [] ->
  load_from (Normal (Some text))
  = match JSON.parse text with
    | Normal (JArray elems) => elems
    | _ => []
    end.
Proof.
  intros H. unfold load_from, load_try. cbn [bind].
  rewrite (or_else_nonempty _ _ H).
  destruct (JSON.parse text) as [[]|]; reflexivity.
Qed.

(** C1, as amended.  The state initializer returns a list for every outcome
    of the storage read, and never throws: the empty list when the read
    threw, when nothing is stored, when the stored text is not valid JSON,
    and when it parses to a value that is not an array; when it parses to an
    array, that array itself, whatever its elements are. *)
Theorem C1_load_total (read : completion (option jsstring)) :
  (read = Throw -> load_from read = [])
  /\ (read = Normal None -> load_from read = [])
  /\ (forall text, read = Normal (Some text) -> JSON.parse text = Throw ->
        load_from read = [])
  /\ (forall text v, read = Normal (Some text) -> JSON.parse text = Normal v ->
        isArray v = false -> load_from read = [])
  /\ (forall text elems, read = Normal (Some text) ->
        JSON.parse text = Normal (JArray elems) -> load_from read = elems).
Proof.
  repeat split.
  - intros ->. reflexivity.
  - intros ->. reflexivity.
  - intros text -> H. destruct text as [|c text]; [reflexivity|].
    rewrite load_from_text by discriminate. now rewrite H.
  - intros text v -> H Hv. destruct text as [|c text]; [reflexivity|].
    rewrite load_from_text by discriminate. rewrite H.
    destruct v; try reflexivity. discriminate.
  - intros text elems -> H. destruct text as [|c text].
    + rewrite parse_empty_text in H. discriminate.
    + rewrite load_from_text by discriminate. now rewrite H.
Qed.

Lemma C1_load_total_witness :
  load_from Throw = []
  /\ load_from (Normal None) = []
  /\ load_from (Normal (Some (json_text "[1,"))) = []
  /\ load_from (Normal (Some (json_text "{'id':'k'}"))) = []
  /\ load_from (Normal (Some untitled_blob))
     = [JObject [(lit "title", JString (lit "x"))]].
Proof.
  split; [|split; [|split; [|split]]].
  - destruct (C1_load_total Throw) as (H & _). apply H. reflexivity.
  - destruct (C1_load_total (Normal None)) as (_ & H & _). apply H. reflexivity.
  - destruct (C1_load_total (Normal (Some (json_text "[1,")))) as (_ & _ & H & _).
    apply (H (json_text "[1,")); reflexivity.
  - destruct (C1_load_total (Normal (Some (json_text "{'id':'k'}"))))
      as (_ & _ & _ & H & _).
    apply (H (json_text "{'id':'k'}") (JObject [(lit "id", JString (lit "k"))]));
      reflexivity.
  - destruct (C1_load_total (Normal (Some untitled_blob))) as (_ & _ & _ & _ & H).
    apply (H untitled_blob); reflexivity.
Defined.

(** C1, as stated, fails: a stored array whose element has no [id] and no
    [completed] has not the shape of a todo list, and the initializer
    returns it as it is. *)
Lemma C1_shape_mismatch_is_kept :
  stored_shape_ok untitled_blob = false
  /\ load_from (Normal (Some untitled_blob))
     = [JObject [(lit "title", JString (lit "x"))]].
Proof. split; reflexivity. Qed.

Lemma getItem_setItem (st : Storage) (key text : jsstring) :
  getItem (setItem st key text) key = Some text.
Proof. unfold getItem, setItem. now rewrite str_eqb_refl. Qed.

Lemma load_write_values (l : list Todo) (st : Storage) :
  load (write l st) = List.map value_of_Todo l.
Proof.
  unfold load, write. rewrite getItem_setItem.
  rewrite load_from_text by (unfold stringify; discriminate).
  now rewrite parse_stringify.
Qed.

Lemma load_write_Todos (l : list Todo) (st : Storage) :
  List.map Todo_of_value (load (write l st)) = List.map Some l.
Proof.
  rewrite load_write_values, map_map.
  apply map_ext. apply Todo_of_value_of_Todo.
Qed.

(** C2.  What the initializer returns from a storage in which the effect has
    written the list [l] is [l]: the same number of values, in the same
    order, each the object of the corresponding item, and each reads back at
    the type [Todo] as that item. *)
Theorem C2_load_write (l : list Todo) (st : Storage) :
  load (write l st) = List.map value_of_Todo l
  /\ List.map Todo_of_value (load (write l st)) = List.map Some l.
Proof.
  split; [apply load_write_values | apply load_write_Todos].
Qed.

(** * The base 36 text of a number *)

Lemma digit36_value_digit (d : N) : (d < 36)%N -> digit36_value (digit36 d) = d.
Proof.
  intros H. unfold digit36, digit36_value.
  destruct (d <? 10)%N eqn:E.
  - apply N.ltb_lt in E.
    replace (48 + d <? 58)%N with true by (symmetry; apply N.ltb_lt; lia). lia.
  - apply N.ltb_ge in E.
    replace (87 + d <? 58)%N with false by (symmetry; apply N.ltb_ge; lia). lia.
Qed.

Lemma digits36_value (fuel : nat) : forall n acc,
  (n < 36 ^ N.of_nat fuel)%N ->
  of_base36 (digits36 fuel n acc)
  = fold_left (fun a c => (a * 36 + digit36_value c)%N) acc n.
Proof.
  unfold of_base36.
  induction fuel as [|fuel IH]; intros n acc H.
  - cbn in H. assert (n = 0%N) by lia. subst. reflexivity.
  - cbn [digits36].
    assert (Hm : (n mod 36 < 36)%N) by (apply N.mod_lt; discriminate).
    pose proof (N.div_mod n 36 ltac:(discriminate)) as Hd.
    destruct (n / 36 =? 0)%N eqn:E.
    + apply N.eqb_eq in E. cbn [fold_left].
      rewrite digit36_value_digit by exact Hm. f_equal. lia.
    + rewrite IH.
      * cbn [fold_left]. rewrite digit36_value_digit by exact Hm. f_equal. lia.
      * rewrite Nat2N.inj_succ, N.pow_succ_r' in H.
        apply N.Div0.div_lt_upper_bound. exact H.
Qed.

(** The text [nat_toString36] gives stands for the number it was given: the
    fuel it starts with is never used up before the last digit. *)
Lemma nat_toString36_value (n : N) : of_base36 (nat_toString36 n) = n.
Proof.
  unfold nat_toString36. rewrite digits36_value; [reflexivity|].
  destruct n as [|p]; [reflexivity|].
  rewrite Nat2N.inj_succ, N2Nat.id.
  apply N.lt_le_trans with (2 ^ N.succ (N.log2 (N.pos p)))%N.
  - apply N.log2_spec. reflexivity.
  - apply N.pow_le_mono_l. lia.
Qed.

(** * The ids that [uid] makes *)

Lemma In_firstn (n : nat) : forall (l : list N) (x : N), In x (firstn n l) -> In x l.
Proof.
  induction n as [|n IH]; intros [|y l] x H; cbn [firstn] in H;
    try contradiction.
  destruct H as [->|H]; [left; reflexivity | right; now apply IH].
Qed.

Lemma random_part_digits (e : Env) :
  random_part e = List.map digit36 (firstn 7 (random e)).
Proof.
  unfold random_part, slice, fraction_toString36.
  destruct (random e) as [|d ds]; [reflexivity|].
  change (skipn 2 (lit "0." ++ List.map digit36 (d :: ds)))
    with (List.map digit36 (d :: ds)).
  now rewrite firstn_map.
Qed.

Lemma digit36_is_base36 (d : N) : (d < 36)%N -> is_base36 (digit36 d) = true.
Proof.
  intros H. unfold is_base36, digit36.
  destruct (d <? 10)%N eqn:E.
  - apply N.ltb_lt in E. apply orb_true_iff. left.
    apply andb_true_iff. split; apply N.leb_le; lia.
  - apply N.ltb_ge in E. apply orb_true_iff. right.
    apply andb_true_iff. split; apply N.leb_le; lia.
Qed.

Lemma digits36_shape (fuel : nat) : forall n acc,
  forallb is_base36 acc = true ->
  forallb is_base36 (digits36 fuel n acc) = true
  /\ (acc <> [] -> digits36 fuel n acc <> []).
Proof.
  induction fuel as [|fuel IH]; intros n acc H; [tauto|].
  cbn [digits36].
  assert (A : forallb is_base36 (digit36 (n mod 36) :: acc) = true).
  { cbn [forallb]. rewrite H, digit36_is_base36; [reflexivity|].
    apply N.mod_lt. discriminate. }
  destruct (n / 36 =? 0)%N.
  - split; [exact A | discriminate].
  - destruct (IH (n / 36)%N _ A) as (B & C). split; [exact B|].
    intros _. apply C. discriminate.
Qed.

Lemma nat_toString36_shape (n : N) :
  forallb is_base36 (nat_toString36 n) = true /\ nat_toString36 n <> [].
Proof.
  unfold nat_toString36. cbn [digits36].
  assert (A : forallb is_base36 [digit36 (n mod 36)] = true).
  { cbn [forallb]. rewrite digit36_is_base36; [reflexivity|].
    apply N.mod_lt. discriminate. }
  destruct (n / 36 =? 0)%N; [split; [exact A | discriminate]|].
  destruct (digits36_shape (N.to_nat (N.log2 n)) (n / 36)%N _ A) as (B & C).
  split; [exact B | apply C; discriminate].
Qed.

Lemma app_same_length (a b c d : jsstring) :
  List.length a = List.length c -> a ++ b = c ++ d -> a = c /\ b = d.
Proof.
  revert c; induction a as [|x a IH]; intros [|y c] L E; try discriminate.
  - split; [reflexivity | exact E].
  - injection L as L. injection E as -> E.
    destruct (IH c L E) as (-> & ->). split; reflexivity.
Qed.

Lemma nat_toString36_inj (n m : N) : nat_toString36 n = nat_toString36 m -> n = m.
Proof.
  intros E. rewrite <- (nat_toString36_value n), <- (nat_toString36_value m).
  now rewrite E.
Qed.

Lemma uid_not_empty (e : Env) : uid e <> [].
Proof.
  destruct (nat_toString36_shape (now e)) as (_ & B).
  change (uid e) with (random_part e ++ nat_toString36 (now e)).
  intros E. apply app_eq_nil in E. tauto.
Qed.

Lemma random_part_length (e : Env) :
  7 <= List.length (random e) -> List.length (random_part e) = 7.
Proof.
  intros H. rewrite random_part_digits, length_map. now apply firstn_length_le.
Qed.

Lemma uid_same_length_inj (e e' : Env) :
  List.length (random_part e) = List.length (random_part e') ->
  uid e = uid e' -> random_part e = random_part e' /\ now e = now e'.
Proof.
  intros L E.
  change (random_part e ++ nat_toString36 (now e)
          = random_part e' ++ nat_toString36 (now e')) in E.
  destruct (app_same_length _ _ _ _ L E) as (A & B).
  split; [exact A | now apply nat_toString36_inj].
Qed.

Lemma uid_differs_by_time (e e' : Env) :
  7 <= List.length (random e) -> 7 <= List.length (random e') ->
  now e <> now e' -> uid e <> uid e'.
Proof.
  intros L L' D E. apply D.
  apply (uid_same_length_inj e e'); [|exact E].
  now rewrite !random_part_length.
Qed.

(** * The three operations *)

(** C3.  [addTodo] puts exactly one new item in front of the list: it has
    the title given, [completed = false], and the id that [uid] generates
    from this call's reading of the random number and of the clock; the
    items that were there follow it, unchanged and in their order.  The id
    is freshly generated: it is not empty, and it differs from the id of
    the item of every call made in another millisecond, when both calls
    read a random number of seven digits or more.  Adding A and then B to
    the empty list gives B before A. *)
Theorem C3_add_prepends (e : Env) (t : jsstring) (l : list Todo) :
  List.length (addTodo e t l) = S (List.length l)
  /\ (exists item, nth_error (addTodo e t l) 0 = Some item
        /\ title item = t /\ id item = uid e /\ completed item = false
        /\ id item <> []
        /\ (forall e' t' l' item',
              nth_error (addTodo e' t' l') 0 = Some item' ->
              7 <= List.length (random e) -> 7 <= List.length (random e') ->
              now e <> now e' -> id item <> id item'))
  /\ tl (addTodo e t l) = l
  /\ (forall n, nth_error (addTodo e t l) (S n) = nth_error l n)
  /\ (forall e' : Env,
        List.map title (addTodo e' (lit "B") (addTodo e (lit "A") []))
        = [lit "B"; lit "A"]).
Proof.
  split; [reflexivity|]. split; [|repeat split].
  exists {| id := uid e; title := t; completed := false |}.
  split; [reflexivity|]. split; [reflexivity|]. split; [reflexivity|].
  split; [reflexivity|]. split; [apply uid_not_empty|].
  intros e' t' l' item' E L L' D. injection E as <-.
  now apply uid_differs_by_time.
Qed.

Lemma C3_add_prepends_witness :
  id (new_item (env1, lit "B")) <> id (new_item (env0, lit "A")).
Proof.
  destruct (C3_add_prepends env1 (lit "B") [new_item (env0, lit "A")])
    as (_ & (item & E & _ & _ & _ & _ & D) & _).
  injection E as <-.
  apply (D env0 (lit "A") [] (new_item (env0, lit "A")) eq_refl);
    [cbn; lia | cbn; lia | discriminate].
Defined.

Section Toggle.

Variable i : jsstring.

Lemma toggleTodo_cons (t : Todo) (l : list Todo) :
  toggleTodo i (t :: l)
  = (if str_eqb (id t) i then flipped t else t) :: toggleTodo i l.
Proof. reflexivity. Qed.

Lemma toggleTodo_ids (l : list Todo) : ids (toggleTodo i l) = ids l.
Proof.
  induction l as [|t l IH]; [reflexivity|].
  rewrite toggleTodo_cons. unfold ids in *. cbn [List.map]. rewrite IH.
  destruct (str_eqb (id t) i); reflexivity.
Qed.

Lemma toggleTodo_titles (l : list Todo) :
  List.map title (toggleTodo i l) = List.map title l.
Proof.
  induction l as [|t l IH]; [reflexivity|].
  rewrite toggleTodo_cons. cbn [List.map]. rewrite IH.
  destruct (str_eqb (id t) i); reflexivity.
Qed.

Lemma toggleTodo_nth (l : list Todo) : forall n t,
  nth_error l n = Some t ->
  nth_error (toggleTodo i l) n
  = Some (if str_eqb (id t) i then flipped t else t).
Proof.
  induction l as [|u l IH]; intros [|n] t H; try discriminate.
  - injection H as ->. reflexivity.
  - rewrite toggleTodo_cons. cbn [nth_error] in *. now apply IH.
Qed.

Lemma toggleTodo_missing (l : list Todo) :
  ~ In i (ids l) -> toggleTodo i l = l.
Proof.
  induction l as [|t l IH]; intros H; [reflexivity|].
  rewrite toggleTodo_cons. cbn [ids List.map In] in H.
  destruct (str_eqb (id t) i) eqn:E.
  - apply str_eqb_eq in E. tauto.
  - f_equal. apply IH. unfold ids. tauto.
Qed.

Lemma flipped_flipped (t : Todo) : flipped (flipped t) = t.
Proof. destruct t as [a b c]. unfold flipped. cbn. now rewrite negb_involutive. Qed.

Lemma toggleTodo_twice (l : list Todo) : toggleTodo i (toggleTodo i l) = l.
Proof.
  induction l as [|t l IH]; [reflexivity|].
  rewrite !toggleTodo_cons, IH.
  destruct (str_eqb (id t) i) eqn:E.
  - change (id (flipped t)) with (id t). rewrite E. now rewrite flipped_flipped.
  - now rewrite E.
Qed.

End Toggle.

(** C4.  [toggleTodo i] keeps the length of the list and, place by place,
    the ids and the titles; at each place the item is the old one with
    [completed] negated when its id is [i], and the old one itself
    otherwise.  When no item has the id [i] the list is returned as it
    is. *)
Theorem C4_toggle (i : jsstring) (l : list Todo) :
  List.length (toggleTodo i l) = List.length l
  /\ ids (toggleTodo i l) = ids l
  /\ List.map title (toggleTodo i l) = List.map title l
  /\ (forall n t, nth_error l n = Some t ->
        exists t', nth_error (toggleTodo i l) n = Some t'
          /\ (id t = i -> completed t' = negb (completed t))
          /\ (id t <> i -> t' = t))
  /\ (~ In i (ids l) -> toggleTodo i l = l).
Proof.
  split; [apply length_map|].
  split; [apply toggleTodo_ids|].
  split; [apply toggleTodo_titles|].
  split; [|apply toggleTodo_missing].
  intros n t H. rewrite (toggleTodo_nth i l n t H).
  destruct (str_eqb (id t) i) eqn:E; eexists; split; try reflexivity.
  - split; [reflexivity|]. apply str_eqb_eq in E. tauto.
  - apply str_eqb_neq in E. split; [tauto|reflexivity].
Qed.

Lemma C4_toggle_witness :
  (exists t', nth_error (toggleTodo (lit "b") [item_A; item_B; item_C]) 1 = Some t'
     /\ completed t' = negb (completed item_B))
  /\ (exists t', nth_error (toggleTodo (lit "b") [item_A; item_B; item_C]) 2 = Some t'
     /\ t' = item_C)
  /\ toggleTodo (lit "z") [item_A; item_B; item_C] = [item_A; item_B; item_C].
Proof.
  destruct (C4_toggle (lit "b") [item_A; item_B; item_C]) as (_ & _ & _ & H & _).
  destruct (C4_toggle (lit "z") [item_A; item_B; item_C]) as (_ & _ & _ & _ & M).
  split; [|split].
  - destruct (H 1 item_B eq_refl) as (t' & E & F & _).
    exists t'. split; [exact E | apply F; reflexivity].
  - destruct (H 2 item_C eq_refl) as (t' & E & _ & F).
    exists t'. split; [exact E | apply F; discriminate].
  - apply M. cbn. intros [E|[E|[E|[]]]]; discriminate.
Defined.

(** C6.  Toggling the same id twice gives the list back. *)
Theorem C6_toggle_twice (i : jsstring) (l : list Todo) :
  toggleTodo i (toggleTodo i l) = l.
Proof. apply toggleTodo_twice. Qed.

Section Remove.

Variable i : jsstring.

Lemma removeTodo_cons (t : Todo) (l : list Todo) :
  removeTodo i (t :: l)
  = if str_eqb (id t) i then removeTodo i l else t :: removeTodo i l.
Proof. unfold removeTodo. cbn [filter]. now destruct (str_eqb (id t) i). Qed.

Lemma removeTodo_app (l1 l2 : list Todo) :
  removeTodo i (l1 ++ l2) = removeTodo i l1 ++ removeTodo i l2.
Proof. apply filter_app. Qed.

Lemma removeTodo_missing (l : list Todo) :
  ~ In i (ids l) -> removeTodo i l = l.
Proof.
  induction l as [|t l IH]; intros H; [reflexivity|].
  rewrite removeTodo_cons. cbn [ids List.map In] in H.
  destruct (str_eqb (id t) i) eqn:E.
  - apply str_eqb_eq in E. tauto.
  - f_equal. apply IH. unfold ids. tauto.
Qed.

Lemma removeTodo_In (l : list Todo) (t : Todo) :
  In t (removeTodo i l) <-> In t l /\ id t <> i.
Proof.
  unfold removeTodo. rewrite filter_In, negb_true_iff, str_eqb_neq. tauto.
Qed.

Lemma removeTodo_ids (l : list Todo) : ~ In i (ids (removeTodo i l)).
Proof.
  unfold ids. rewrite in_map_iff. intros (t & E & H).
  apply removeTodo_In in H. tauto.
Qed.

Lemma removeTodo_split (l1 l2 : list Todo) (t : Todo) :
  id t = i -> ~ In i (ids l1) -> ~ In i (ids l2) ->
  removeTodo i (l1 ++ t :: l2) = l1 ++ l2.
Proof.
  intros E H1 H2. rewrite removeTodo_app, removeTodo_cons.
  rewrite (proj2 (str_eqb_eq (id t) i) E).
  now rewrite !removeTodo_missing.
Qed.

End Remove.

(** C5.  [removeTodo i] returns the items whose id is not [i], in their
    order, for every list, also one in which the id occurs several times:
    around any item of the list, the result is what is left of the items
    before it, then the item itself unless its id is [i], then what is left
    of the items after it.  So when the item with id [i] stands between
    [l1] and [l2], which do not have that id, the result is [l1] followed
    by [l2]; removing B from A, B, C leaves A, C; and when no item has the
    id [i] the list is returned as it is. *)
Theorem C5_remove (i : jsstring) (l : list Todo) :
  (forall l1 t l2, l = l1 ++ t :: l2 ->
      (id t = i -> removeTodo i l = removeTodo i l1 ++ removeTodo i l2)
      /\ (id t <> i -> removeTodo i l = removeTodo i l1 ++ t :: removeTodo i l2))
  /\ (forall l1 t l2, l = l1 ++ t :: l2 -> id t = i ->
      ~ In i (ids l1) -> ~ In i (ids l2) -> removeTodo i l = l1 ++ l2)
  /\ (forall a b c, l = [a; b; c] -> id b = i -> id a <> i -> id c <> i ->
        removeTodo i l = [a; c])
  /\ (forall t, In t (removeTodo i l) <-> In t l /\ id t <> i)
  /\ (~ In i (ids l) -> removeTodo i l = l).
Proof.
  split; [|split; [|split; [|split]]].
  - intros l1 t l2 ->. rewrite removeTodo_app, removeTodo_cons. split.
    + intros E. now rewrite (proj2 (str_eqb_eq (id t) i) E).
    + intros E. now rewrite (proj2 (str_eqb_neq (id t) i) E).
  - intros l1 t l2 -> E H1 H2. now apply removeTodo_split.
  - intros a b c -> E Ha Hc.
    apply (removeTodo_split i [a] [c] b E); cbn; intuition congruence.
  - apply removeTodo_In.
  - apply removeTodo_missing.
Qed.

Lemma C5_remove_witness :
  removeTodo (lit "b") [item_A; item_B; item_C] = [item_A; item_C]
  /\ removeTodo (lit "z") [item_A; item_B; item_C] = [item_A; item_B; item_C]
  /\ removeTodo (lit "k") [item_A; twin_a; item_B; twin_b] = [item_A; item_B].
Proof.
  split; [|split].
  - destruct (C5_remove (lit "b") [item_A; item_B; item_C]) as (_ & _ & H & _).
    apply (H item_A item_B item_C); [reflexivity|reflexivity|discriminate|discriminate].
  - destruct (C5_remove (lit "z") [item_A; item_B; item_C]) as (_ & _ & _ & _ & H).
    apply H. cbn. intros [E|[E|[E|[]]]]; discriminate.
  - destruct (C5_remove (lit "k") [item_A; twin_a; item_B; twin_b]) as (H & _).
    destruct (H [item_A; twin_a] item_B [twin_b] eq_refl) as (_ & K).
    rewrite K by discriminate. reflexivity.
Defined.

(** The scenario of the specification: from the empty list, add a title,
    toggle the new item, remove it. *)
Example scenario_buy_milk :
  let l1 := addTodo env0 (lit "Buy milk") [] in
  let l2 := toggleTodo (uid env0) l1 in
  List.map (fun t => (title t, completed t)) l1 = [(lit "Buy milk", false)]
  /\ List.map (fun t => (title t, completed t)) l2 = [(lit "Buy milk", true)]
  /\ removeTodo (uid env0) l2 = [].
Proof. repeat split. Qed.

(** * Distinct ids *)

Lemma adds_ids (calls : list (Env * jsstring)) : forall l,
  ids (adds calls l) = rev (List.map (fun c => uid (fst c)) calls) ++ ids l.
Proof.
  induction calls as [|[e t] calls IH]; intros l; [reflexivity|].
  cbn [adds List.map rev fst]. rewrite IH, <- app_assoc. reflexivity.
Qed.

Lemma NoDup_ids_remove (i : jsstring) (l : list Todo) :
  NoDup (ids l) -> NoDup (ids (removeTodo i l)).
Proof.
  induction l as [|t l IH]; intros H; [constructor|].
  rewrite removeTodo_cons. cbn [ids List.map] in H. inversion H as [|x xs Hx Hl]; subst.
  destruct (str_eqb (id t) i); [now apply IH|].
  cbn [ids List.map]. constructor; [|now apply IH].
  unfold ids in *. rewrite in_map_iff in *. intros (u & E & Hu).
  apply removeTodo_In in Hu. apply Hx. exists u. tauto.
Qed.

Lemma NoDup_map_pair {A B C : Type} (f : A -> B) (g : A -> C) (l : list A) :
  NoDup (List.map g l) -> NoDup (List.map (fun a => (f a, g a)) l).
Proof.
  induction l as [|a l IH]; intros H; [constructor|].
  cbn [List.map] in *. inversion H as [|x xs Hx Hl]; subst.
  constructor; [|now apply IH].
  intros I. apply Hx. apply in_map_iff in I as (b & E & Hb).
  injection E as _ <-. now apply in_map.
Qed.

Lemma NoDup_uids (calls : list (Env * jsstring)) :
  Forall (fun c => 7 <= List.length (random (fst c))) calls ->
  NoDup (List.map (fun c => (random_part (fst c), now (fst c))) calls) ->
  NoDup (List.map (fun c => uid (fst c)) calls).
Proof.
  induction calls as [|c calls IH]; intros F N; [constructor|].
  cbn [List.map] in *. inversion F as [|x xs Fc Fl]; subst.
  inversion N as [|x xs Nc Nl]; subst.
  constructor; [|now apply IH].
  intros I. apply Nc. apply in_map_iff in I as (c' & E & Hc').
  apply in_map_iff. exists c'. split; [|exact Hc'].
  rewrite Forall_forall in Fl.
  destruct (uid_same_length_inj (fst c') (fst c)) as (R & T);
    [now rewrite !random_part_length by auto | exact E |].
  now rewrite R, T.
Qed.

Lemma NoDup_adds (calls : list (Env * jsstring)) (l : list Todo) :
  NoDup (ids l) ->
  Forall (fun c => 7 <= List.length (random (fst c))) calls ->
  NoDup (List.map (fun c => (random_part (fst c), now (fst c))) calls) ->
  Forall (fun c => ~ In (uid (fst c)) (ids l)) calls ->
  NoDup (ids (adds calls l)).
Proof.
  intros H F N D. rewrite adds_ids.
  apply NoDup_app; [apply NoDup_rev; now apply NoDup_uids | exact H |].
  intros i I. apply in_rev, in_map_iff in I as (c & <- & Hc).
  rewrite Forall_forall in D. now apply D.
Qed.

(** C7, as amended.  From a list whose ids are pairwise distinct, a run of
    [addTodo] calls puts the ids that [uid] generates in front of the ids
    of the list, and all these ids are pairwise distinct when every call
    reads a random number of seven digits or more, no two calls share both
    the millisecond and the seven digits that [uid] keeps, and no generated
    id is an id of the list already; in particular when the calls are made
    in pairwise different milliseconds.  [toggleTodo] and [removeTodo] keep
    the ids pairwise distinct; and the list read back from storage after it
    was written has the ids it had. *)
Theorem C7_distinct_ids (l : list Todo) (H : NoDup (ids l)) :
  (forall calls,
      Forall (fun c => 7 <= List.length (random (fst c))) calls ->
      NoDup (List.map (fun c => (random_part (fst c), now (fst c))) calls) ->
      Forall (fun c => ~ In (uid (fst c)) (ids l)) calls ->
      ids (adds calls l) = rev (List.map (fun c => uid (fst c)) calls) ++ ids l
      /\ NoDup (ids (adds calls l)))
  /\ (forall calls,
      Forall (fun c => 7 <= List.length (random (fst c))) calls ->
      NoDup (List.map (fun c => now (fst c)) calls) ->
      Forall (fun c => ~ In (uid (fst c)) (ids l)) calls ->
      NoDup (ids (adds calls l)))
  /\ (forall i, NoDup (ids (toggleTodo i l)))
  /\ (forall i, NoDup (ids (removeTodo i l)))
  /\ (forall st, List.map Todo_of_value (load (write l st)) = List.map Some l).
Proof.
  split; [|split; [|split; [|split]]].
  - intros calls F N D. split; [apply adds_ids | now apply NoDup_adds].
  - intros calls F N D. apply NoDup_adds; try assumption.
    now apply (NoDup_map_pair (fun c => random_part (fst c)) (fun c => now (fst c))).
  - intros i. now rewrite toggleTodo_ids.
  - intros i. now apply NoDup_ids_remove.
  - intros st. apply load_write_Todos.
Qed.

Lemma C7_distinct_ids_witness :
  NoDup (ids (adds [(env0, lit "A"); (env1, lit "B")] [item_C]))
  /\ NoDup (ids (toggleTodo (lit "c") [item_C]))
  /\ NoDup (ids (removeTodo (lit "c") [item_C])).
Proof.
  assert (H : NoDup (ids [item_C])).
  { repeat constructor. intros []. }
  destruct (C7_distinct_ids [item_C] H) as (_ & A & T & R & _).
  split; [|split]; [apply A | apply T | apply R].
  - repeat constructor; cbn; lia.
  - repeat constructor; cbn; intuition discriminate.
  - repeat constructor; cbn; intros [E|[]]; vm_compute in E; discriminate.
Defined.

(** C7, as stated, fails: two calls of [addTodo] in the same millisecond
    whose random numbers agree on the seven digits that [uid] keeps put the
    same id twice in a list that was empty; two calls in different
    milliseconds do the same when their random numbers have one and two
    digits and the texts of the two times make up for it; and the
    initializer returns two items with one id when the stored array holds
    them. *)
Lemma C7_same_digits_same_id :
  NoDup (ids [])
  /\ random env0 <> random env2
  /\ ids (adds [(env0, lit "A"); (env2, lit "B")] [])
     = [lit "i3z0123loyw3v28"; lit "i3z0123loyw3v28"]
  /\ ~ NoDup (ids (adds [(env0, lit "A"); (env2, lit "B")] []))
  /\ now env3 <> now env4
  /\ ids (adds [(env3, lit "A"); (env4, lit "B")] [])
     = [lit "i3loyw3v28"; lit "i3loyw3v28"]
  /\ List.map Todo_of_value (load (setItem emptyStorage STORAGE_KEY twin_blob))
     = [Some twin_a; Some twin_b]
  /\ ~ NoDup (ids [twin_a; twin_b]).
Proof.
  split; [constructor|]. split; [discriminate|]. split; [reflexivity|].
  split; [|split; [discriminate|split; [reflexivity|split; [reflexivity|]]]];
    intros H; inversion H as [|x xs Hx _]; subst; apply Hx; left; reflexivity.
Qed.

(** * The counter of the header *)

Lemma completed_count_items (l : list Todo) : completed_count l = completed_items l.
Proof.
  unfold completed_count.
  induction l as [|t l IH]; [reflexivity|].
  cbn [filter completed_items]. destruct (completed t); cbn [List.length]; lia.
Qed.

Lemma completed_items_le (l : list Todo) : completed_items l <= List.length l.
Proof.
  induction l as [|t l IH]; [apply le_n|].
  cbn [completed_items List.length]. destruct (completed t); lia.
Qed.

(** C8.  The two numbers shown are computed from the list alone: the first
    is the number of items whose [completed] is true, the second is the
    length of the list; so they follow the list through every operation. *)
Theorem C8_counter_is_derived (l : list Todo) :
  done_counter l = (completed_items l, List.length l)
  /\ fst (done_counter l) <= snd (done_counter l)
  /\ (forall e t, done_counter (addTodo e t l)
                  = (completed_items l, S (List.length l)))
  /\ (forall i, snd (done_counter (toggleTodo i l)) = List.length l)
  /\ (forall i, done_counter (removeTodo i l)
                = (completed_items (removeTodo i l), List.length (removeTodo i l))).
Proof.
  unfold done_counter. rewrite completed_count_items.
  split; [reflexivity|]. split; [apply completed_items_le|].
  split; [|split].
  - intros e t. rewrite completed_count_items. reflexivity.
  - intros i. apply length_map.
  - intros i. now rewrite completed_count_items.
Qed.

(** * Trimming and the submit handler *)

Lemma trimStart_blank (s : jsstring) : blank s = true -> trimStart s = [].
Proof.
  induction s as [|c s IH]; [reflexivity|].
  cbn [blank forallb trimStart]. intros H. apply andb_true_iff in H as [Hc Hs].
  rewrite Hc. now apply IH.
Qed.

Lemma trim_blank (s : jsstring) : blank s = true -> trim s = [].
Proof. intros H. unfold trim. now rewrite (trimStart_blank s H). Qed.

(** [trimStart] splits a text into white space and a rest that is empty or
    starts with another character. *)
Lemma trimStart_split (s : jsstring) :
  exists w, s = w ++ trimStart s /\ blank w = true.
Proof.
  induction s as [|c s (w & E & Hw)]; [exists []; split; reflexivity|].
  cbn [trimStart]. destruct (is_white_space c) eqn:Hc.
  - exists (c :: w). split; [cbn [app]; congruence|].
    cbn [blank forallb]. now rewrite Hc.
  - exists []. split; reflexivity.
Qed.

Lemma trimStart_head (s : jsstring) (c : code_unit) (r : jsstring) :
  trimStart s = c :: r -> is_white_space c = false.
Proof.
  induction s as [|d s IH]; [discriminate|].
  cbn [trimStart]. destruct (is_white_space d) eqn:Hd; [exact IH|].
  intros [= <- <-]. exact Hd.
Qed.

Lemma trimStart_fixed (s : jsstring) (c : code_unit) (r : jsstring) :
  s = c :: r -> is_white_space c = false -> trimStart s = s.
Proof. intros -> H. cbn [trimStart]. now rewrite H. Qed.

Lemma trimStart_idem (s : jsstring) : trimStart (trimStart s) = trimStart s.
Proof.
  destruct (trimStart s) as [|c r] eqn:E; [reflexivity|].
  apply (trimStart_fixed _ c r eq_refl). exact (trimStart_head s c r E).
Qed.

Lemma trimEnd_split (s : jsstring) :
  exists w, s = trimEnd s ++ w /\ blank w = true.
Proof.
  destruct (trimStart_split (rev s)) as (w & E & Hw).
  exists (rev w). split.
  - unfold trimEnd. rewrite <- rev_app_distr, <- E. now rewrite rev_involutive.
  - unfold blank in *. rewrite forallb_forall in *.
    intros x Hx. apply Hw. now apply in_rev.
Qed.

Lemma trimEnd_idem (s : jsstring) : trimEnd (trimEnd s) = trimEnd s.
Proof. unfold trimEnd. now rewrite rev_involutive, trimStart_idem. Qed.

Lemma trim_idem (s : jsstring) : trim (trim s) = trim s.
Proof.
  unfold trim.
  assert (E : trimStart (trimEnd (trimStart s)) = trimEnd (trimStart s)).
  { destruct (trimEnd (trimStart s)) as [|c r] eqn:Et; [reflexivity|].
    apply (trimStart_fixed _ c r eq_refl).
    destruct (trimEnd_split (trimStart s)) as (w & Es & _).
    rewrite Et in Es. cbn [app] in Es.
    exact (trimStart_head s c (r ++ w) Es). }
  rewrite E. apply trimEnd_idem.
Qed.

Lemma trim_not_blank (s : jsstring) (c : code_unit) (r : jsstring) :
  trim s = c :: r -> blank (c :: r) = false.
Proof.
  intros E. cbn [blank forallb].
  assert (H : is_white_space c = false); [|now rewrite H].
  unfold trim in E.
  destruct (trimEnd_split (trimStart s)) as (w & Es & _).
  rewrite E in Es. cbn [app] in Es.
  exact (trimStart_head s c (r ++ w) Es).
Qed.

(** C9.  For a text made of white space only, the empty text included,
    [onSubmit] makes no call, and submitting changes neither the list nor
    the input.  Whenever [onSubmit] does call [addTodo], the title it passes
    is the trimmed input: it is not empty, not blank, and trimming it again
    changes nothing; the list then is the old one with one item of that
    title in front. *)
Theorem C9_blank_submit_ignored (e : Env) (h : Home) :
  (blank (value h) = true -> onSubmit (value h) = [] /\ submit e h = h)
  /\ (forall v, In (Call_addTodo v) (onSubmit (value h)) ->
        v = trim (value h) /\ v <> [] /\ blank v = false /\ trim v = v
        /\ todos (submit e h) = addTodo e v (todos h))
  /\ (onSubmit (value h) = [] -> submit e h = h).
Proof.
  unfold submit, onSubmit.
  split; [|split].
  - intros H. now rewrite (trim_blank _ H).
  - intros v. destruct (trim (value h)) as [|c r] eqn:E; [intros []|].
    intros [[= <-]|[[=]|[]]]. repeat split.
    + discriminate.
    + exact (trim_not_blank _ _ _ E).
    + rewrite <- E. apply trim_idem.
  - destruct (trim (value h)); [reflexivity | discriminate].
Qed.

Lemma C9_blank_submit_ignored_witness :
  submit env0 {| todos := [item_A]; value := [32; 9; 160; 8232; 12288]%N |}
  = {| todos := [item_A]; value := [32; 9; 160; 8232; 12288]%N |}
  /\ submit env0 {| todos := [item_A]; value := [] |}
     = {| todos := [item_A]; value := [] |}
  /\ todos (submit env0 {| todos := [item_A]; value := lit "  Buy milk " |})
     = addTodo env0 (lit "Buy milk") [item_A].
Proof.
  split; [|split].
  - destruct (C9_blank_submit_ignored env0
                {| todos := [item_A]; value := [32; 9; 160; 8232; 12288]%N |})
      as (H & _).
    apply H. reflexivity.
  - destruct (C9_blank_submit_ignored env0 {| todos := [item_A]; value := [] |})
      as (H & _).
    apply H. reflexivity.
  - destruct (C9_blank_submit_ignored env0
                {| todos := [item_A]; value := lit "  Buy milk " |})
      as (_ & H & _).
    destruct (H (lit "Buy milk")) as (_ & _ & _ & _ & E); [|exact E].
    left. reflexivity.
Defined.

(** * Items that share an id *)

(** C10.  Nothing in the initializer looks at the elements, so a stored
    array may give two items the same id.  [removeTodo i] then leaves no
    item with the id [i] and keeps every other item; [toggleTodo i] negates
    [completed] at every place where the id is [i]. *)
Theorem C10_shared_id (i : jsstring) (l : list Todo) :
  (forall t, In t (removeTodo i l) -> id t <> i)
  /\ (forall t, In t l -> id t <> i -> In t (removeTodo i l))
  /\ (forall n t, nth_error l n = Some t -> id t = i ->
        nth_error (toggleTodo i l) n = Some (flipped t))
  /\ load (setItem emptyStorage STORAGE_KEY twin_blob)
     = List.map value_of_Todo [twin_a; twin_b]
  /\ removeTodo (lit "k") [twin_a; twin_b] = []
  /\ toggleTodo (lit "k") [twin_a; twin_b] = [flipped twin_a; flipped twin_b].
Proof.
  split; [|split; [|split; [|split; [|split]]]]; try reflexivity.
  - intros t H. apply removeTodo_In in H. tauto.
  - intros t H H'. apply removeTodo_In. tauto.
  - intros n t H E. rewrite (toggleTodo_nth i l n t H).
    now rewrite (proj2 (str_eqb_eq (id t) i) E).
Qed.

Lemma C10_shared_id_witness :
  id twin_a <> lit "z"
  /\ In twin_a (removeTodo (lit "z") [twin_a; twin_b])
  /\ nth_error (toggleTodo (lit "k") [twin_a; twin_b]) 1 = Some (flipped twin_b).
Proof.
  destruct (C10_shared_id (lit "z") [twin_a; twin_b]) as (R & K & _).
  destruct (C10_shared_id (lit "k") [twin_a; twin_b]) as (_ & _ & T & _).
  assert (I : In twin_a (removeTodo (lit "z") [twin_a; twin_b])).
  { apply K; [left; reflexivity | discriminate]. }
  split; [exact (R twin_a I)|]. split; [exact I|].
  apply (T 1 twin_b); reflexivity.
Defined.

(** * The dark mode preference *)

Lemma getItem_setItem_other (st : Storage) (k k' text : jsstring) :
  k' <> k -> getItem (setItem st k text) k' = getItem st k'.
Proof.
  intros H. unfold getItem, setItem.
  now rewrite (proj2 (str_eqb_neq k' k) H).
Qed.

Lemma keys_differ : prefers_dark <> STORAGE_KEY.
Proof. discriminate. Qed.

Lemma parse_stringify_boolean (b : bool) :
  JSON.parse (stringify_boolean b) = Normal (JBool b).
Proof. destruct b; reflexivity. Qed.

Lemma initial_dark_saved (st : Storage) (media : option bool) (c : code_unit) (s : jsstring) :
  getItem st prefers_dark = Some (c :: s) ->
  initial_dark true st media
  = match JSON.parse (c :: s) with
    | Normal v => Normal (Some v)
    | Throw => Throw
    end.
Proof.
  intros H. unfold initial_dark, initial_dark_from. cbn [bind]. rewrite H.
  destruct (JSON.parse (c :: s)); reflexivity.
Qed.

(** X1.  A boolean dark mode state that the effect of [useDarkMode] saves
    is what its initializer returns at the next start, whatever the media
    query says and whatever else the storage holds.  When the state is
    undefined, which is what the initializer returns when nothing is saved
    and [matchMedia] is missing, the effect saves the text undefined, and
    the initializer throws at the next start. *)
Theorem dark_preference_round_trip (d : option bool) (st : Storage)
  (classes : list jsstring) (media : option bool) :
  getItem (fst (dark_effect_on d st classes)) prefers_dark = Some (saved_dark d)
  /\ initial_dark true (fst (dark_effect_on d st classes)) media
     = match d with
       | Some b => Normal (Some (JBool b))
       | None => Throw
       end.
Proof.
  split; [destruct d; apply getItem_setItem|].
  destruct d as [[|]|]; unfold dark_effect_on, dark_effect; cbn [fst].
  - rewrite initial_dark_saved with (c := 116%N) (s := lit "rue")
      by apply getItem_setItem.
    reflexivity.
  - rewrite initial_dark_saved with (c := 102%N) (s := lit "alse")
      by apply getItem_setItem.
    reflexivity.
  - rewrite initial_dark_saved with (c := 117%N) (s := lit "ndefined")
      by apply getItem_setItem.
    reflexivity.
Qed.

(** X2.  With a window and no saved preference, absent or the empty
    string, the initializer of [useDarkMode] returns what the media query
    matches, and undefined when [matchMedia] is missing.  A saved text that
    is not valid JSON makes it throw, while the same text saved as the todo
    list is loaded as the empty list. *)
Theorem initial_dark_edge_cases (st : Storage) (media : option bool) :
  (getItem st prefers_dark = None \/ getItem st prefers_dark = Some [] ->
     initial_dark true st media = Normal (option_map JBool media))
  /\ (forall text, text <> [] -> JSON.parse text = Throw ->
        initial_dark true (setItem st prefers_dark text) media = Throw
        /\ load (setItem st STORAGE_KEY text) = []).
Proof.
  split.
  - unfold initial_dark, initial_dark_from. cbn [bind].
    intros [H|H]; rewrite H; reflexivity.
  - intros text Ht Hp. split.
    + destruct text as [|c s]; [congruence|].
      rewrite initial_dark_saved with (c := c) (s := s) by apply getItem_setItem.
      now rewrite Hp.
    + unfold load. rewrite getItem_setItem.
      rewrite load_from_text by exact Ht. now rewrite Hp.
Qed.

Lemma initial_dark_edge_cases_witness :
  initial_dark true emptyStorage (Some true) = Normal (Some (JBool true))
  /\ initial_dark true emptyStorage None = Normal None
  /\ initial_dark true (setItem emptyStorage prefers_dark (lit "{")) (Some true) = Throw
  /\ load (setItem emptyStorage STORAGE_KEY (lit "{")) = [].
Proof.
  destruct (initial_dark_edge_cases emptyStorage (Some true)) as (A & B).
  destruct (initial_dark_edge_cases emptyStorage None) as (A' & _).
  destruct (B (lit "{")) as (T & L); [discriminate | reflexivity |].
  split; [apply A; left; reflexivity|].
  split; [apply A'; left; reflexivity|].
  split; [exact T | exact L].
Defined.

Lemma classList_add_In (token : jsstring) (classes : list jsstring) (c : jsstring) :
  In c (classList_add token classes) <-> c = token \/ In c classes.
Proof.
  unfold classList_add.
  destruct (existsb (str_eqb token) classes) eqn:E.
  - apply existsb_exists in E as (x & Hx & Ex). apply str_eqb_eq in Ex. subst x.
    split; [tauto|]. intros [->|H]; assumption.
  - rewrite in_app_iff. cbn. intuition congruence.
Qed.

Lemma classList_remove_In (token : jsstring) (classes : list jsstring) (c : jsstring) :
  In c (classList_remove token classes) <-> c <> token /\ In c classes.
Proof.
  unfold classList_remove. rewrite filter_In, negb_true_iff, str_eqb_neq. tauto.
Qed.

Lemma classList_add_NoDup (token : jsstring) (classes : list jsstring) :
  NoDup classes -> NoDup (classList_add token classes).
Proof.
  intros H. unfold classList_add.
  destruct (existsb (str_eqb token) classes) eqn:E; [exact H|].
  apply NoDup_app; [exact H | repeat constructor; intros [] |].
  intros x Hx [->|[]].
  assert (F : existsb (str_eqb x) classes = true); [|congruence].
  apply existsb_exists. exists x. split; [exact Hx | apply str_eqb_refl].
Qed.

Lemma classList_add_others (token : jsstring) (classes : list jsstring) :
  classList_remove token (classList_add token classes) = classList_remove token classes.
Proof.
  unfold classList_add.
  destruct (existsb (str_eqb token) classes); [reflexivity|].
  unfold classList_remove. rewrite filter_app. cbn [filter].
  rewrite str_eqb_refl. cbn [negb]. apply app_nil_r.
Qed.

Lemma classList_remove_idem (token : jsstring) (classes : list jsstring) :
  classList_remove token (classList_remove token classes) = classList_remove token classes.
Proof.
  unfold classList_remove. induction classes as [|c l IH]; [reflexivity|].
  cbn [filter]. destruct (negb (str_eqb c token)) eqn:E; [|exact IH].
  cbn [filter]. rewrite E. now rewrite IH.
Qed.

(** X3.  After the effect of [useDarkMode] the root element has the class
    [dark] exactly when dark mode is on; its other classes are the ones it
    had, in their order, and no class is repeated. *)
Theorem dark_effect_class (b : bool) (st : Storage) (classes : list jsstring)
  (H : NoDup classes) :
  (In (lit "dark") (snd (dark_effect b st classes)) <-> b = true)
  /\ classList_remove (lit "dark") (snd (dark_effect b st classes))
     = classList_remove (lit "dark") classes
  /\ NoDup (snd (dark_effect b st classes)).
Proof.
  unfold dark_effect. cbn [snd]. destruct b.
  - split; [|split].
    + rewrite classList_add_In. intuition.
    + apply classList_add_others.
    + now apply classList_add_NoDup.
  - split; [|split].
    + rewrite classList_remove_In. intuition congruence.
    + apply classList_remove_idem.
    + now apply NoDup_filter.
Qed.

Lemma dark_effect_class_witness :
  In (lit "dark") (snd (dark_effect true emptyStorage [lit "h-full"]))
  /\ ~ In (lit "dark") (snd (dark_effect false emptyStorage [lit "dark"; lit "h-full"]))
  /\ NoDup (snd (dark_effect true emptyStorage [lit "h-full"])).
Proof.
  assert (N1 : NoDup [lit "h-full"]) by (repeat constructor; intros []).
  assert (N2 : NoDup [lit "dark"; lit "h-full"]).
  { repeat constructor; cbn; intuition discriminate. }
  destruct (dark_effect_class true emptyStorage [lit "h-full"] N1) as (A & _ & C).
  destruct (dark_effect_class false emptyStorage [lit "dark"; lit "h-full"] N2) as (A' & _).
  split; [apply A; reflexivity|]. split; [|exact C].
  intros I. apply A' in I. discriminate.
Defined.

(** X4.  The two hooks do not disturb each other's saved state: saving the
    dark mode preference leaves what the todo list loads as it was, and
    writing the todo list leaves what the dark mode initializer returns as
    it was. *)
Theorem saved_states_independent (l : list Todo) (b : bool) (st : Storage)
  (classes : list jsstring) (has_window : bool) (media : option bool) :
  load (fst (dark_effect b st classes)) = load st
  /\ initial_dark has_window (write l st) media = initial_dark has_window st media.
Proof.
  split.
  - unfold load, dark_effect. cbn [fst].
    rewrite getItem_setItem_other; [reflexivity|].
    intros E. apply keys_differ. now symmetry.
  - unfold initial_dark, write.
    now rewrite getItem_setItem_other by apply keys_differ.
Qed.

(** * Sessions *)

Lemma in_sync_with_todos (s : Session) (h : Home) :
  in_sync s -> in_sync (with_todos s h).
Proof.
  intros (_ & D & C). unfold in_sync, with_todos, write.
  cbn [page dark storage classList todos].
  split; [apply getItem_setItem|]. split; [|exact C].
  rewrite getItem_setItem_other by apply keys_differ. exact D.
Qed.

Lemma dark_effect_In (b : bool) (st : Storage) (classes : list jsstring) :
  In (lit "dark") (snd (dark_effect b st classes)) <-> b = true.
Proof.
  unfold dark_effect. cbn [snd]. destruct b.
  - rewrite classList_add_In. intuition.
  - rewrite classList_remove_In. intuition congruence.
Qed.

Lemma dark_effect_on_saved (d : option bool) (st : Storage) (classes : list jsstring) :
  fst (dark_effect_on d st classes) = setItem st prefers_dark (saved_dark d).
Proof. destruct d; reflexivity. Qed.

Lemma dark_effect_on_In (d : option bool) (st : Storage) (classes : list jsstring) :
  In (lit "dark") (snd (dark_effect_on d st classes)) <-> d = Some true.
Proof.
  destruct d as [b|]; cbn [dark_effect_on].
  - rewrite dark_effect_In. split; [now intros -> | now intros [= ->]].
  - cbn [snd]. rewrite classList_remove_In. intuition congruence.
Qed.

Lemma in_sync_mount (l : list Todo) (d : option bool) (st : Storage)
  (classes : list jsstring) :
  in_sync (mount l d st classes).
Proof.
  unfold in_sync, mount. cbn [page dark storage classList todos].
  rewrite dark_effect_on_saved.
  split; [|split].
  - unfold write.
    rewrite getItem_setItem_other by (intros E; apply keys_differ; now symmetry).
    apply getItem_setItem.
  - apply getItem_setItem.
  - apply dark_effect_on_In.
Qed.

Lemma in_sync_with_dark (s : Session) (b : bool) :
  in_sync s -> in_sync (with_dark s b).
Proof.
  intros (T & _ & _). unfold in_sync, with_dark.
  cbn [page dark storage classList].
  split; [|split].
  - unfold dark_effect. cbn [fst].
    rewrite getItem_setItem_other by (intros E; apply keys_differ; now symmetry).
    exact T.
  - unfold dark_effect. cbn [fst]. apply getItem_setItem.
  - rewrite dark_effect_In. split; [now intros -> | now intros [= ->]].
Qed.

Lemma in_sync_step (s : Session) (ev : event) : in_sync s -> in_sync (step s ev).
Proof.
  intros H. destruct ev as [e|text|i|i|b]; cbn [step].
  - destruct (onSubmit (value (page s))); [exact H | now apply in_sync_with_todos].
  - exact H.
  - now apply in_sync_with_todos.
  - now apply in_sync_with_todos.
  - destruct (dark s) as [b'|]; [destruct (Bool.eqb b b'); [exact H|]|];
      now apply in_sync_with_dark.
Qed.

Lemma in_sync_run (evs : list event) : forall s, in_sync s -> in_sync (run s evs).
Proof.
  unfold run. induction evs as [|ev evs IH]; intros s H; [exact H|].
  cbn [fold_left]. apply IH. now apply in_sync_step.
Qed.

Lemma in_sync_load (s : Session) :
  in_sync s -> load (storage s) = List.map value_of_Todo (todos (page s)).
Proof.
  intros (T & _ & _). unfold load. rewrite T.
  rewrite load_from_text by (unfold stringify; discriminate).
  now rewrite parse_stringify.
Qed.

Lemma in_sync_initial_dark (s : Session) (media : option bool) :
  in_sync s ->
  initial_dark true (storage s) media
  = match dark s with
    | Some b => Normal (Some (JBool b))
    | None => Throw
    end.
Proof.
  intros (_ & D & _). destruct (dark s) as [[|]|]; cbn [saved_dark] in D.
  - rewrite initial_dark_saved with (c := 116%N) (s := lit "rue") by exact D.
    reflexivity.
  - rewrite initial_dark_saved with (c := 102%N) (s := lit "alse") by exact D.
    reflexivity.
  - rewrite initial_dark_saved with (c := 117%N) (s := lit "ndefined") by exact D.
    reflexivity.
Qed.

Lemma exact_Todo_value (t : Todo) : exact_Todo (value_of_Todo t) = Some t.
Proof. destruct t; reflexivity. Qed.

Lemma as_Todos_values (l : list Todo) : as_Todos (List.map value_of_Todo l) = Some l.
Proof.
  induction l as [|t l IH]; [reflexivity|].
  cbn [List.map as_Todos]. now rewrite exact_Todo_value, IH.
Qed.

Lemma exact_Todo_inv (v : jsvalue) (t : Todo) :
  exact_Todo v = Some t -> v = value_of_Todo t.
Proof.
  unfold exact_Todo.
  destruct v as [| | | | |ps]; try discriminate.
  destruct ps as [|[k1 [| | |i| |]] [|[k2 [| | |u| |]] [|[k3 [|c| | | |]] [|]]]];
    try discriminate.
  destruct (str_eqb k1 (lit "id")) eqn:E1; [|discriminate].
  destruct (str_eqb k2 (lit "title")) eqn:E2; [|discriminate].
  destruct (str_eqb k3 (lit "completed")) eqn:E3; [|discriminate].
  apply str_eqb_eq in E1, E2, E3. subst. intros [= <-]. reflexivity.
Qed.

(** The typed list stands for the loaded array itself: [as_Todos] is
    defined exactly on the arrays of objects that [value_of_Todo] gives. *)
Lemma as_Todos_inv (vs : list jsvalue) : forall l,
  as_Todos vs = Some l -> vs = List.map value_of_Todo l.
Proof.
  induction vs as [|v vs IH]; intros l; cbn [as_Todos].
  - now intros [= <-].
  - destruct (exact_Todo v) as [t|] eqn:E; [|discriminate].
    destruct (as_Todos vs) as [l'|]; [|discriminate].
    intros [= <-]. cbn [List.map]. f_equal; [now apply exact_Todo_inv | now apply IH].
Qed.

Lemma start_inv (st : Storage) (media : option bool) (classes : list jsstring)
  (s : Session) :
  start st media classes = Normal (Some s) ->
  exists l d, load st = List.map value_of_Todo l /\ s = mount l d st classes.
Proof.
  unfold start. destruct (initial_dark true st media) as [d|]; [|discriminate].
  cbn [bind]. destruct (as_Todos (load st)) as [l|] eqn:E; [|discriminate].
  destruct (as_dark d) as [d'|]; [|discriminate].
  intros [= <-]. exists l, d'. split; [now apply as_Todos_inv | reflexivity].
Qed.

Lemma start_in_sync (s : Session) (media : option bool) (classes : list jsstring) :
  in_sync s ->
  start (storage s) media classes
  = match dark s with
    | Some b => Normal (Some (mount (todos (page s)) (Some b) (storage s) classes))
    | None => Throw
    end.
Proof.
  intros H. unfold start.
  rewrite (in_sync_initial_dark s media H), (in_sync_load s H).
  destruct (dark s) as [b|]; [|reflexivity].
  cbn [bind as_dark]. now rewrite as_Todos_values.
Qed.

(** X5.  Take a page that has started in a browser on a storage whose todo
    list is absent or holds [Todo] records as the page writes them, with a
    dark mode state that is a boolean or undefined.  Whatever the user does
    then, the storage holds the current list, and the root element has the
    class [dark] exactly when dark mode is on.  If the dark mode state is a
    boolean, a reload starts the page with the list and the state as they
    are now, and with an empty input.  If it is still undefined, no
    preference saved, no [matchMedia], the switch never flipped, the text
    undefined is what is saved and a reload throws. *)
Theorem session_survives_reload (st : Storage) (media : option bool)
  (classes : list jsstring) (s : Session) (evs : list event)
  (H : start st media classes = Normal (Some s)) :
  load (storage (run s evs))
  = List.map value_of_Todo (todos (page (run s evs)))
  /\ (In (lit "dark") (classList (run s evs)) <-> dark (run s evs) = Some true)
  /\ (forall b media' classes', dark (run s evs) = Some b ->
        start (storage (run s evs)) media' classes'
        = Normal (Some (mount (todos (page (run s evs))) (Some b)
                              (storage (run s evs)) classes')))
  /\ (forall media' classes', dark (run s evs) = None ->
        getItem (storage (run s evs)) prefers_dark = Some (lit "undefined")
        /\ start (storage (run s evs)) media' classes' = Throw).
Proof.
  destruct (start_inv st media classes s H) as (l & d & _ & ->).
  pose proof (in_sync_run evs _ (in_sync_mount l d st classes)) as S.
  split; [now apply in_sync_load|]. split; [apply S|]. split.
  - intros b media' classes' E. rewrite (start_in_sync _ media' classes' S).
    now rewrite E.
  - intros media' classes' E. split.
    + destruct S as (_ & D & _). now rewrite E in D.
    + rewrite (start_in_sync _ media' classes' S). now rewrite E.
Qed.

Lemma session_survives_reload_witness :
  start (storage (run (mount [] (Some false) emptyStorage [])
                      [Change (lit "  Buy milk "); Submit env0; Switch true]))
        None []
  = Normal (Some (mount [new_item (env0, lit "Buy milk")] (Some true)
                   (storage (run (mount [] (Some false) emptyStorage [])
                      [Change (lit "  Buy milk "); Submit env0; Switch true]))
                   []))
  /\ start (storage (run (mount [] None emptyStorage [])
                      [Change (lit "  Buy milk "); Submit env0]))
        None []
     = Throw.
Proof.
  split.
  - destruct (session_survives_reload emptyStorage (Some false) []
                (mount [] (Some false) emptyStorage [])
                [Change (lit "  Buy milk "); Submit env0; Switch true] eq_refl)
      as (_ & _ & R & _).
    apply (R true None []). reflexivity.
  - destruct (session_survives_reload emptyStorage None []
                (mount [] None emptyStorage [])
                [Change (lit "  Buy milk "); Submit env0] eq_refl)
      as (_ & _ & _ & T).
    apply (T None []). reflexivity.
Defined.

(** * Titles *)

Lemma onSubmit_calls (text : jsstring) :
  onSubmit text = []
  \/ exists v, onSubmit text = [Call_addTodo v; Call_setValue []] /\ tidy v.
Proof.
  unfold onSubmit. destruct (trim text) as [|c r] eqn:E; [left; reflexivity|].
  right. exists (c :: r). split; [reflexivity|].
  split; [discriminate|]. rewrite <- E. apply trim_idem.
Qed.

Lemma all_tidy_toggle (i : jsstring) (l : list Todo) :
  all_tidy l -> all_tidy (toggleTodo i l).
Proof.
  unfold all_tidy, toggleTodo. intros H. apply Forall_map.
  apply Forall_impl with (2 := H). intros t Ht.
  destruct (str_eqb (id t) i); exact Ht.
Qed.

Lemma all_tidy_remove (i : jsstring) (l : list Todo) :
  all_tidy l -> all_tidy (removeTodo i l).
Proof.
  unfold all_tidy, removeTodo. rewrite !Forall_forall.
  intros H t Ht. apply filter_In in Ht. apply H. tauto.
Qed.

Lemma all_tidy_step (s : Session) (ev : event) :
  all_tidy (todos (page s)) -> all_tidy (todos (page (step s ev))).
Proof.
  intros H. destruct ev as [e|text|i|i|b]; cbn [step].
  - unfold submit.
    destruct (onSubmit_calls (value (page s))) as [E|(v & E & Hv)]; rewrite E.
    + exact H.
    + cbn. constructor; assumption.
  - exact H.
  - cbn. now apply all_tidy_toggle.
  - cbn. now apply all_tidy_remove.
  - destruct (dark s) as [b'|]; [destruct (Bool.eqb b b')|]; exact H.
Qed.

(** X6.  A title in the list is never empty and never has white space
    around it: when this holds of the list the page mounts with, it holds
    after everything the user does. *)
Theorem titles_stay_tidy (l : list Todo) (d : option bool) (st : Storage)
  (classes : list jsstring) (evs : list event) (H : all_tidy l) :
  all_tidy (todos (page (run (mount l d st classes) evs))).
Proof.
  assert (G : forall s, all_tidy (todos (page s)) ->
                        all_tidy (todos (page (run s evs)))).
  { unfold run. induction evs as [|ev evs IH]; intros s Hs; [exact Hs|].
    cbn [fold_left]. apply IH. now apply all_tidy_step. }
  apply G. exact H.
Qed.

Lemma titles_stay_tidy_witness :
  all_tidy
    (todos (page (run (mount [item_A] (Some false) emptyStorage [])
                      [Change (lit "  Buy milk "); Submit env0; Change (lit "   ");
                       Submit env1; Check (lit "a"); Switch true]))).
Proof.
  apply titles_stay_tidy.
  constructor; [|constructor]. split; [discriminate | reflexivity].
Defined.

(** X7.  Submitting twice in a row is submitting once: the second submit
    finds the input empty, or as blank as the first one found it, and
    changes nothing, so no item is added twice and nothing is written
    again. *)
Theorem second_submit_changes_nothing (s : Session) (e1 e2 : Env) :
  step (step s (Submit e1)) (Submit e2) = step s (Submit e1).
Proof.
  cbn [step].
  destruct (onSubmit_calls (value (page s))) as [E|(v & E & _)].
  - rewrite E. now rewrite E.
  - rewrite E. unfold submit. rewrite E. reflexivity.
Qed.

(** * The counter through the operations *)

Lemma filter_id_missing (i : jsstring) (p : Todo -> bool) (l : list Todo) :
  ~ In i (ids l) -> filter (fun u => str_eqb (id u) i && p u) l = [].
Proof.
  induction l as [|u l IH]; intros H; [reflexivity|].
  cbn [ids List.map In] in H. cbn [filter].
  destruct (str_eqb (id u) i) eqn:E.
  - apply str_eqb_eq in E. tauto.
  - cbn [andb]. apply IH. unfold ids. tauto.
Qed.

Lemma filter_id_unique (i : jsstring) (p : Todo -> bool) (l : list Todo) (t : Todo) :
  NoDup (ids l) -> In t l -> id t = i ->
  filter (fun u => str_eqb (id u) i && p u) l = if p t then [t] else [].
Proof.
  induction l as [|u l IH]; intros N I E; [destruct I|].
  cbn [ids List.map] in N. inversion N as [|x xs Hx Hl]; subst x xs.
  cbn [filter]. destruct I as [->|I].
  - rewrite (proj2 (str_eqb_eq (id t) i) E). cbn [andb].
    rewrite (filter_id_missing i p l) by (rewrite <- E; exact Hx).
    destruct (p t); reflexivity.
  - assert (D : str_eqb (id u) i = false).
    { apply str_eqb_neq. intros F. apply Hx. rewrite F, <- E.
      unfold ids. now apply in_map. }
    rewrite D. cbn [andb]. now apply IH.
Qed.

Lemma count_id_as_filter (i : jsstring) (l : list Todo) :
  count_id i l = List.length (filter (fun u => str_eqb (id u) i && true) l).
Proof.
  unfold count_id. f_equal. apply filter_ext. intros u. now rewrite andb_true_r.
Qed.

Lemma toggle_count (i : jsstring) (l : list Todo) :
  completed_count (toggleTodo i l) + count_id_done i l
  = completed_count l + count_id_open i l.
Proof.
  unfold completed_count, count_id_done, count_id_open.
  induction l as [|t l IH]; [reflexivity|].
  rewrite toggleTodo_cons. cbn [filter].
  destruct (str_eqb (id t) i) eqn:E; cbn [andb].
  - unfold flipped. cbn [completed].
    destruct (completed t); cbn [negb List.length]; lia.
  - destruct (completed t); cbn [List.length]; lia.
Qed.

(** X8.  Toggling changes the number shown as done by the items with that
    id that were open, minus those that were done.  When the id belongs to
    exactly one item, the number goes up by one if the item was open and
    down by one if it was done. *)
Theorem toggle_moves_counter (i : jsstring) (l : list Todo) :
  completed_count (toggleTodo i l) + count_id_done i l
  = completed_count l + count_id_open i l
  /\ (forall t, NoDup (ids l) -> In t l -> id t = i ->
        completed_count (toggleTodo i l)
        = if completed t then completed_count l - 1 else S (completed_count l)).
Proof.
  split; [apply toggle_count|].
  intros t N I E. pose proof (toggle_count i l) as H.
  unfold count_id_done, count_id_open in H.
  rewrite (filter_id_unique i (fun u => completed u) l t N I E) in H.
  rewrite (filter_id_unique i (fun u => negb (completed u)) l t N I E) in H.
  destruct (completed t); cbn [negb List.length] in H; lia.
Qed.

Lemma toggle_moves_counter_witness :
  completed_count (toggleTodo (lit "a") [item_A; item_B; item_C]) = 2
  /\ completed_count (toggleTodo (lit "b") [item_A; item_B; item_C]) = 0.
Proof.
  assert (N : NoDup (ids [item_A; item_B; item_C])).
  { repeat constructor; cbn; intuition discriminate. }
  destruct (toggle_moves_counter (lit "a") [item_A; item_B; item_C]) as (_ & A).
  destruct (toggle_moves_counter (lit "b") [item_A; item_B; item_C]) as (_ & B).
  split.
  - apply (A item_A N); [left; reflexivity | reflexivity].
  - apply (B item_B N); [right; left; reflexivity | reflexivity].
Defined.

Lemma remove_length (i : jsstring) (l : list Todo) :
  List.length (removeTodo i l) + count_id i l = List.length l.
Proof.
  unfold count_id. induction l as [|t l IH]; [reflexivity|].
  rewrite removeTodo_cons. cbn [filter].
  destruct (str_eqb (id t) i); cbn [List.length]; lia.
Qed.

Lemma remove_count (i : jsstring) (l : list Todo) :
  completed_count (removeTodo i l) + count_id_done i l = completed_count l.
Proof.
  unfold completed_count, count_id_done. induction l as [|t l IH]; [reflexivity|].
  rewrite removeTodo_cons. cbn [filter].
  destruct (str_eqb (id t) i); cbn [andb filter];
    destruct (completed t); cbn [List.length]; lia.
Qed.

(** X9.  Removing takes from the total the number of items with that id,
    and from the number shown as done those of them that were done.  When
    the id belongs to exactly one item the total goes down by one. *)
Theorem remove_moves_counter (i : jsstring) (l : list Todo) :
  List.length (removeTodo i l) + count_id i l = List.length l
  /\ completed_count (removeTodo i l) + count_id_done i l = completed_count l
  /\ (forall t, NoDup (ids l) -> In t l -> id t = i ->
        S (List.length (removeTodo i l)) = List.length l
        /\ completed_count (removeTodo i l) + (if completed t then 1 else 0)
           = completed_count l).
Proof.
  split; [apply remove_length|]. split; [apply remove_count|].
  intros t N I E.
  pose proof (remove_length i l) as H. pose proof (remove_count i l) as H'.
  rewrite count_id_as_filter in H. unfold count_id_done in H'.
  rewrite (filter_id_unique i (fun _ => true) l t N I E) in H.
  rewrite (filter_id_unique i (fun u => completed u) l t N I E) in H'.
  cbn [List.length] in H. split; [lia|].
  destruct (completed t); cbn [List.length] in H'; lia.
Qed.

Lemma remove_moves_counter_witness :
  S (List.length (removeTodo (lit "b") [item_A; item_B; item_C])) = 3
  /\ completed_count (removeTodo (lit "b") [item_A; item_B; item_C]) + 1 = 1.
Proof.
  assert (N : NoDup (ids [item_A; item_B; item_C])).
  { repeat constructor; cbn; intuition discriminate. }
  destruct (remove_moves_counter (lit "b") [item_A; item_B; item_C]) as (_ & _ & B).
  apply (B item_B N); [right; left; reflexivity | reflexivity].
Defined.

(** * How the operations compose *)

Lemma toggleTodo_id_at (j : jsstring) (t : Todo) :
  id (if str_eqb (id t) j then flipped t else t) = id t.
Proof. destruct (str_eqb (id t) j); reflexivity. Qed.

(** X10.  Removing and toggling may be done in any order: two removals
    commute, two toggles commute, and a removal commutes with a toggle;
    removing the same id a second time changes nothing. *)
Theorem operations_commute (i j : jsstring) (l : list Todo) :
  removeTodo i (removeTodo i l) = removeTodo i l
  /\ removeTodo i (removeTodo j l) = removeTodo j (removeTodo i l)
  /\ toggleTodo i (toggleTodo j l) = toggleTodo j (toggleTodo i l)
  /\ removeTodo i (toggleTodo j l) = toggleTodo j (removeTodo i l).
Proof.
  split; [|split; [|split]].
  - apply removeTodo_missing. apply removeTodo_ids.
  - induction l as [|t l IH]; [reflexivity|].
    rewrite !removeTodo_cons.
    destruct (str_eqb (id t) j) eqn:Ej, (str_eqb (id t) i) eqn:Ei;
      rewrite ?removeTodo_cons, ?Ei, ?Ej, IH; reflexivity.
  - induction l as [|t l IH]; [reflexivity|].
    rewrite !toggleTodo_cons, IH. f_equal.
    destruct (str_eqb (id t) j) eqn:Ej, (str_eqb (id t) i) eqn:Ei;
      change (id (flipped t)) with (id t); rewrite ?Ei, ?Ej; reflexivity.
  - induction l as [|t l IH]; [reflexivity|].
    rewrite toggleTodo_cons, !removeTodo_cons, toggleTodo_id_at.
    destruct (str_eqb (id t) i); [exact IH|].
    rewrite toggleTodo_cons, IH. reflexivity.
Qed.

(** X11.  Removing the item that was just added gives the list back when
    its id was not in the list.  When the id was in the list already, the
    removal takes the older items of that id with it. *)
Theorem remove_after_add (e : Env) (t : jsstring) (l : list Todo) :
  removeTodo (uid e) (addTodo e t l) = removeTodo (uid e) l
  /\ (~ In (uid e) (ids l) -> removeTodo (uid e) (addTodo e t l) = l)
  /\ (forall u, In u l -> id u = uid e ->
        ~ In u (removeTodo (uid e) (addTodo e t l))).
Proof.
  assert (E : removeTodo (uid e) (addTodo e t l) = removeTodo (uid e) l).
  { unfold addTodo. rewrite removeTodo_cons. cbn [id]. now rewrite str_eqb_refl. }
  split; [exact E|]. split.
  - intros H. rewrite E. now apply removeTodo_missing.
  - intros u _ Hu I. rewrite E in I. apply removeTodo_In in I. tauto.
Qed.

Lemma remove_after_add_witness :
  removeTodo (uid env0) (addTodo env0 (lit "A") [item_C]) = [item_C]
  /\ ~ In (new_item (env0, lit "A"))
         (removeTodo (uid env2) (addTodo env2 (lit "B") [new_item (env0, lit "A")])).
Proof.
  destruct (remove_after_add env0 (lit "A") [item_C]) as (_ & A & _).
  destruct (remove_after_add env2 (lit "B") [new_item (env0, lit "A")]) as (_ & _ & B).
  split.
  - apply A. cbn. intros [F|[]]. vm_compute in F. discriminate.
  - apply B; [left; reflexivity | reflexivity].
Defined.

(** X12.  After a run of [addTodo] calls the list is the new items, the
    last added first, followed by the list as it was. *)
Theorem adds_newest_first (calls : list (Env * jsstring)) (l : list Todo) :
  adds calls l = rev (List.map new_item calls) ++ l.
Proof.
  revert l. induction calls as [|[e t] calls IH]; intros l; [reflexivity|].
  cbn [adds List.map rev]. rewrite IH, <- app_assoc. reflexivity.
Qed.

(** * The rows of the list *)

Lemma rows_of_TodoList (l : list Todo) : rows_of (TodoList l) = List.map row l.
Proof. destruct l; reflexivity. Qed.

Lemma nth_error_rows (l : list Todo) (n : nat) (r : Row) :
  nth_error (rows_of (TodoList l)) n = Some r ->
  exists t, nth_error l n = Some t /\ r = row t.
Proof.
  rewrite rows_of_TodoList, nth_error_map.
  destruct (nth_error l n) as [t|]; [|discriminate].
  intros [= <-]. eauto.
Qed.

(** X13.  Clicking the checkbox of a row flips the state of that checkbox
    and leaves the key and the text of the row as they were; the list keeps
    its number of rows, and every row with another key stays as it is. *)
Theorem checkbox_flips_row (l : list Todo) (n : nat) (r : Row)
  (H : nth_error (rows_of (TodoList l)) n = Some r) :
  (exists r', nth_error (rows_of (TodoList (toggleTodo (onCheckedChange r) l))) n
              = Some r'
     /\ checked r' = negb (checked r) /\ key r' = key r
     /\ children r' = children r)
  /\ List.length (rows_of (TodoList (toggleTodo (onCheckedChange r) l)))
     = List.length (rows_of (TodoList l))
  /\ (forall m q, nth_error (rows_of (TodoList l)) m = Some q -> key q <> key r ->
        nth_error (rows_of (TodoList (toggleTodo (onCheckedChange r) l))) m = Some q).
Proof.
  destruct (nth_error_rows l n r H) as (t & Ht & ->).
  cbn [onCheckedChange row key checked children].
  rewrite !rows_of_TodoList.
  split; [|split].
  - exists (row (flipped t)). rewrite nth_error_map, (toggleTodo_nth _ _ _ _ Ht).
    rewrite str_eqb_refl. repeat split.
  - rewrite !length_map. apply length_map.
  - intros m q Hq Hk.
    rewrite nth_error_map in Hq.
    destruct (nth_error l m) as [u|] eqn:Hu; [|discriminate].
    injection Hq as <-. cbn [key row] in Hk.
    rewrite nth_error_map, (toggleTodo_nth _ _ _ _ Hu).
    now rewrite (proj2 (str_eqb_neq (id u) (id t)) Hk).
Qed.

Lemma checkbox_flips_row_witness :
  exists r', nth_error (rows_of (TodoList (toggleTodo (lit "b") [item_A; item_B; item_C]))) 1
             = Some r'
     /\ checked r' = false /\ key r' = lit "b" /\ children r' = lit "B".
Proof.
  destruct (checkbox_flips_row [item_A; item_B; item_C] 1 (row item_B) eq_refl)
    as ((r' & E & C & K & T) & _).
  exists r'. repeat split; assumption.
Defined.

Lemma nth_error_split_at (l : list Todo) (n : nat) (t : Todo) :
  nth_error l n = Some t -> l = firstn n l ++ t :: skipn (S n) l.
Proof.
  revert l; induction n as [|n IH]; intros [|u l] H; try discriminate.
  - injection H as ->. reflexivity.
  - cbn [firstn skipn app]. f_equal. now apply IH.
Qed.

(** X14.  When the ids are pairwise distinct, confirming the deletion of a
    row takes exactly that row out and leaves the rows before and after it
    as they were, in their order; the empty card shows up exactly when the
    row was the only one. *)
Theorem delete_takes_row_out (l : list Todo) (n : nat) (r : Row)
  (N : NoDup (ids l)) (H : nth_error (rows_of (TodoList l)) n = Some r) :
  rows_of (TodoList (removeTodo (onClick r) l))
  = firstn n (rows_of (TodoList l)) ++ skipn (S n) (rows_of (TodoList l))
  /\ (TodoList (removeTodo (onClick r) l) = EmptyCard <-> List.length l = 1).
Proof.
  destruct (nth_error_rows l n r H) as (t & Ht & ->).
  cbn [onClick row].
  pose proof (nth_error_split_at l n t Ht) as E.
  assert (R : removeTodo (id t) l = firstn n l ++ skipn (S n) l).
  { rewrite E at 1. rewrite E in N. unfold ids in N. rewrite map_app in N.
    cbn [List.map] in N. apply NoDup_remove_2 in N. rewrite in_app_iff in N.
    apply removeTodo_split; [reflexivity | |]; unfold ids; tauto. }
  split.
  - rewrite !rows_of_TodoList, R, map_app, firstn_map, skipn_map. reflexivity.
  - rewrite R.
    assert (L : List.length l = S (List.length (firstn n l ++ skipn (S n) l))).
    { rewrite E at 1. rewrite !length_app. cbn [List.length]. lia. }
    rewrite L. destruct (firstn n l ++ skipn (S n) l); cbn [TodoList List.length].
    + split; reflexivity.
    + split; [discriminate | lia].
Qed.

Lemma delete_takes_row_out_witness :
  rows_of (TodoList (removeTodo (lit "b") [item_A; item_B; item_C]))
  = [row item_A; row item_C]
  /\ TodoList (removeTodo (lit "c") [item_C]) = EmptyCard.
Proof.
  assert (N : NoDup (ids [item_A; item_B; item_C])).
  { repeat constructor; cbn; intuition discriminate. }
  assert (N' : NoDup (ids [item_C])) by (repeat constructor; intros []).
  split.
  - apply (delete_takes_row_out [item_A; item_B; item_C] 1 (row item_B) N eq_refl).
  - apply (delete_takes_row_out [item_C] 0 (row item_C) N' eq_refl). reflexivity.
Defined.

(** * The shape of an id *)

(** X15.  An id is never the empty string; it keeps at most seven digits
    of the random number; and it is made of the characters 0-9 and a-z
    only. *)
Theorem uid_shape (e : Env) :
  uid e <> []
  /\ List.length (random_part e) <= 7
  /\ (Forall (fun d => (d < 36)%N) (random e) -> forallb is_base36 (uid e) = true).
Proof.
  destruct (nat_toString36_shape (now e)) as (A & B).
  change (uid e) with (random_part e ++ nat_toString36 (now e)).
  split; [|split].
  - intros E. apply app_eq_nil in E. tauto.
  - rewrite random_part_digits, length_map. apply firstn_le_length.
  - intros F. rewrite forallb_app, A, andb_true_r.
    rewrite random_part_digits. apply forallb_forall.
    intros c Hc. apply in_map_iff in Hc as (d & <- & Hd).
    apply digit36_is_base36. rewrite Forall_forall in F. apply F.
    revert Hd. apply In_firstn.
Qed.

Lemma uid_shape_witness :
  uid env0 <> [] /\ forallb is_base36 (uid env0) = true.
Proof.
  destruct (uid_shape env0) as (A & _ & B).
  split; [exact A|]. apply B.
  repeat constructor.
Defined.

(** X16.  When two calls of [uid] keep the same number of random digits,
    equal ids mean the same millisecond and the same digits kept.  So two
    calls that each read a random number of seven digits or more, in
    different milliseconds, make different ids. *)
Theorem uid_tells_the_time (e e' : Env) :
  (List.length (random_part e) = List.length (random_part e') ->
     uid e = uid e' -> now e = now e' /\ random_part e = random_part e')
  /\ (7 <= List.length (random e) -> 7 <= List.length (random e') ->
        now e <> now e' -> uid e <> uid e').
Proof.
  assert (G : List.length (random_part e) = List.length (random_part e') ->
              uid e = uid e' -> now e = now e' /\ random_part e = random_part e').
  { intros L E.
    change (random_part e ++ nat_toString36 (now e)
            = random_part e' ++ nat_toString36 (now e')) in E.
    destruct (app_same_length _ _ _ _ L E) as (A & B).
    split; [now apply nat_toString36_inj | exact A]. }
  split; [exact G|].
  intros L L' D E. apply D. apply G; [|exact E].
  rewrite !random_part_digits, !length_map, !firstn_length_le; [reflexivity | |];
    assumption.
Qed.

Lemma uid_tells_the_time_witness : uid env0 <> uid env1.
Proof.
  destruct (uid_tells_the_time env0 env1) as (_ & H).
  apply H; [cbn; lia | cbn; lia | discriminate].
Defined.

(** * The stored text *)

Lemma map_Some_inj (l1 l2 : list Todo) : List.map Some l1 = List.map Some l2 -> l1 = l2.
Proof.
  revert l2; induction l1 as [|t l1 IH]; intros [|u l2] E; try discriminate.
  - reflexivity.
  - injection E as -> E. f_equal. now apply IH.
Qed.

(** X17.  Two different lists are never stored as the same text. *)
Theorem stringify_injective (l1 l2 : list Todo) :
  JSON.stringify l1 = JSON.stringify l2 -> l1 = l2.
Proof.
  intros E. apply map_Some_inj.
  rewrite <- (load_write_Todos l1 emptyStorage), <- (load_write_Todos l2 emptyStorage).
  unfold write. now rewrite E.
Qed.

Lemma stringify_injective_witness : [item_A; item_B] = [item_A; item_B].
Proof. apply stringify_injective. reflexivity. Defined.
